(** * Cross-validated table-lookup classifier of the Titanic notebook

    A shallow embedding of the "Training Machine Learning Models" notebook
    (stored in [Section 4/RidgeRegression.ipynb]): the two table-lookup
    predictors, the [KFold] splitter the notebook drives, and the manual
    cross-validation loop that fills the global dictionary [performance].

    The notebook calls into pandas and scikit-learn.  Those calls are
    modelled in the modules [pandas] and [sklearn] below, following the
    behaviour of the releases the notebook was written for (its metadata pins
    Python 3.6.2; [Series.argmax] still returned the row label there).

    The evaluation is modelled a second and a third time: as a pool of
    tasks, one per candidate and fold, processed in any order, and as cells
    running in a session that holds the generator of random numbers and the
    global dictionary.  Both are shown to compute what the loop computes.

    Further down come the other cells of that notebook (the majority guess,
    the accuracy on the training and the test set), the feature selection of
    the ridge-regression cells, the Jaccard affinity matrix of the headline
    notebooks and the loop of the elbow plot. *)

From Stdlib Require Import ZArith QArith Lia.
From stdpp Require Import base list sorting strings gmap.

(** ** Exceptions and results *)

Inductive exn : Type :=
| ValueError
| IndexError
| KeyError.

Inductive result (A : Type) : Type :=
| Ok (a : A)
| Raise (e : exn).
Arguments Ok {A} a.
Arguments Raise {A} e.

#[global] Instance result_ret : MRet result := @Ok.
#[global] Instance result_bind : MBind result :=
  fun A B f m => match m with Ok a => f a | Raise e => Raise e end.

(** ** Floating-point values

    A float64 holds a finite number or NaN.  Finite values are kept as exact
    rationals: the comparisons the notebook makes on ages are exact on
    doubles, and an accuracy stands for the double nearest to the quotient
    written here. *)

Inductive float : Type :=
| Finite (q : Q)
| NaN.

(** [a < cutoff] on a float and a Python int; any comparison with NaN is
    false. *)
Definition float_lt (a : float) (cutoff : Z) : bool :=
  match a with
  | Finite q => (Qnum q <? cutoff * Z.pos (Qden q))%Z
  | NaN => false
  end.

(** ** Rows of titanic.csv

    The columns the notebook reads.  [Name] and [Fare] are never used. *)

Record Row : Type := mkRow {
  Survived : Z;
  Pclass : Z;
  Sex : string;
  Age : float;
  Siblings_Spouses_Aboard : Z;
  Parents_Children_Aboard : Z
}.

(** A DataFrame is its rows in positional order. *)
Abbreviation DataFrame := (list Row).

(** Number of occurrences of a label in a column. *)
Definition count (v : Z) (col : list Z) : nat := count_occ Z.eq_dec col v.

(** ** The pandas calls of the notebook *)

Module pandas.

(** pandas is not part of the repository; the calls are modelled on the
    integer labels of the [Survived] column.

    A Series of counts indexed by label, as [value_counts] returns it. *)
Abbreviation Series := (list (Z * nat)).

(** One step of the counting pass: increment the slot of [val] or create
    it.  The int64 hash table lists its slots in bucket order.  For the
    labels 0 and 1 of the [Survived] column the bucket of a label is the
    label itself, so that the slot of 0 comes before the slot of 1 whatever
    the order of the rows; this is the order kept here.  For other labels
    the counts below are those of pandas, but the order of equally frequent
    labels is not: buckets depend on the hash of the label and, where two
    labels collide, on which came first.  Statements that depend on the
    order of equally frequent labels are therefore made for columns of
    zeros and ones only. *)
Fixpoint bump (val : Z) (table : Series) : Series :=
  match table with
  | [] => [(val, 1)]
  | (k, c) :: rest =>
      if (val =? k)%Z then (k, S c) :: rest
      else if (val <? k)%Z then (val, 1) :: (k, c) :: rest
      else (k, c) :: bump val rest
  end.

Definition value_count_int64 (values : list Z) : Series :=
  fold_left (fun table val => bump val table) values [].

(** Stable ascending sort on the counts (short arrays are sorted by
    insertion). *)
Fixpoint insert_by_count (x : Z * nat) (s : Series) : Series :=
  match s with
  | [] => [x]
  | y :: s' =>
      if (x.2 <=? y.2) then x :: y :: s' else y :: insert_by_count x s'
  end.

Definition argsort (s : Series) : Series := foldr insert_by_count [] s.

(** [sort_values(ascending=False)]: the ascending order, reversed. *)
Definition sort_values_descending (s : Series) : Series := rev (argsort s).

(** [Series.value_counts()]. *)
Definition value_counts (values : list Z) : Series :=
  sort_values_descending (value_count_int64 values).

(** [Series.argmax()], the row label of the first occurrence of the
    maximum; raises ValueError on an empty Series. *)
Fixpoint idxmax_from (best : Z * nat) (s : Series) : Z :=
  match s with
  | [] => best.1
  | p :: rest =>
      if (best.2 <? p.2) then idxmax_from p rest else idxmax_from best rest
  end.

Definition argmax (s : Series) : result Z :=
  match s with
  | [] => Raise ValueError
  | p :: rest => Ok (idxmax_from p rest)
  end.

(** [s[key]] on an integer-labelled Series: lookup by label. *)
Fixpoint getitem (s : Series) (key : Z) : result nat :=
  match s with
  | [] => Raise KeyError
  | (k, c) :: rest => if (k =? key)%Z then Ok c else getitem rest key
  end.

(** [obj.iloc[positions]]: positional selection, IndexError out of
    bounds. *)
Definition iloc {A : Type} (obj : list A) (positions : list nat)
  : result (list A) :=
  mapM (fun i => match obj !! i with
                 | Some a => Ok a
                 | None => Raise IndexError
                 end) positions.

(** [frame.apply(f, 1)]: [f] on every row, in order. *)
Definition apply {A B : Type} (f : A -> result B) (frame : list A)
  : result (list B) := mapM f frame.

End pandas.

(** ** The predictors *)

(** The mask of [table_lookup_predictor]: the row [t] of the table against
    the query [x]. *)
Definition similar (x t : Row) : bool :=
  (Pclass t =? Pclass x)%Z
  && String.eqb (Sex t) (Sex x)
  && (Siblings_Spouses_Aboard t =? Siblings_Spouses_Aboard x)%Z
  && (Parents_Children_Aboard t =? Parents_Children_Aboard x)%Z.

(** The mask of [table_lookup_predictor_2], with the age cutoff. *)
Definition similar_2 (age : Z) (x t : Row) : bool :=
  (Pclass t =? Pclass x)%Z
  && String.eqb (Sex t) (Sex x)
  && (Siblings_Spouses_Aboard t =? Siblings_Spouses_Aboard x)%Z
  && (Parents_Children_Aboard t =? Parents_Children_Aboard x)%Z
  && Bool.eqb (float_lt (Age t) age) (float_lt (Age x) age).

Definition table_lookup_predictor (x : Row) (table : DataFrame) : result Z :=
  default ← pandas.argmax (pandas.value_counts (map Survived table));
  let similar_tab := map Survived (List.filter (similar x) table) in
  if (length similar_tab =? 0) then Ok default
  else pandas.argmax (pandas.value_counts similar_tab).

Definition table_lookup_predictor_2 (x : Row) (table : DataFrame) (age : Z)
  : result Z :=
  default ← pandas.argmax (pandas.value_counts (map Survived table));
  let similar_tab := map Survived (List.filter (similar_2 age x) table) in
  if (length similar_tab =? 0) then Ok default
  else pandas.argmax (pandas.value_counts similar_tab).

(** The cell "Predict most common value" at the top of the notebook: 0
    when it is strictly more frequent than 1, otherwise 1. *)
Definition guess (survived : list Z) : result Z :=
  n0 ← pandas.getitem (pandas.value_counts survived) 0;
  n1 ← pandas.getitem (pandas.value_counts survived) 1;
  Ok (if (n1 <? n0) then 0%Z else 1%Z).


(** ** The scikit-learn calls of the notebook *)

Module sklearn.

(** scikit-learn is not part of the repository; [KFold] follows its
    documented behaviour: consecutive folds without shuffling, the first
    [n_samples % n_splits] of size [n_samples // n_splits + 1], the others
    of size [n_samples // n_splits].

    The splitter object; the notebook leaves [shuffle] at its default
    [False], so [n_splits] is its whole state. *)
Record KFoldT : Type := mkKFold { n_splits : nat }.

(** [KFold(n_splits=k)]: at least two splits are required. *)
Definition KFold (k : Z) : result KFoldT :=
  if (k <=? 1)%Z then Raise ValueError else Ok (mkKFold (Z.to_nat k)).

(** [np.full(n_splits, n_samples // n_splits)] with its first
    [n_samples % n_splits] entries incremented. *)
Definition fold_sizes (n_samples n_splits : nat) : list nat :=
  replicate (n_samples mod n_splits) (n_samples / n_splits + 1)
  ++ replicate (n_splits - n_samples mod n_splits) (n_samples / n_splits).

(** [indices[start:stop]]. *)
Definition slice {A : Type} (l : list A) (start stop : nat) : list A :=
  take (stop - start) (drop start l).

Fixpoint iter_test_indices (indices : list nat) (current : nat)
  (sizes : list nat) : list (list nat) :=
  match sizes with
  | [] => []
  | fold_size :: rest =>
      slice indices current (current + fold_size)
      :: iter_test_indices indices (current + fold_size) rest
  end.

(** [kf.split(X)] with [n_samples = len(X)]: the (train, test) index arrays
    of every fold, each taken from [indices] through the boolean test mask;
    ValueError when there are more splits than samples. *)
Definition split (kf : KFoldT) (n_samples : nat)
  : result (list (list nat * list nat)) :=
  if (n_samples <? n_splits kf) then Raise ValueError
  else
    let indices := seq 0 n_samples in
    Ok (map (fun test_index =>
               let test_mask := fun i => bool_decide (i ∈ test_index) in
               (List.filter (fun i => negb (test_mask i)) indices,
                List.filter test_mask indices))
            (iter_test_indices indices 0
               (fold_sizes n_samples (n_splits kf)))).

Fixpoint count_equal (y_true y_pred : list Z) : nat :=
  match y_true, y_pred with
  | t :: y_true', p :: y_pred' =>
      (if (t =? p)%Z then 1 else 0) + count_equal y_true' y_pred'
  | _, _ => 0
  end.

(** [accuracy_score(y_true, y_pred)]: the fraction of positions that agree
    (the mean of an empty comparison is NaN); ValueError when the lengths
    differ. *)
Definition accuracy_score (y_true y_pred : list Z) : result float :=
  if negb (length y_true =? length y_pred) then Raise ValueError
  else match length y_true with
       | O => Ok NaN
       | S _ => Ok (Finite (Z.of_nat (count_equal y_true y_pred)
                            # Pos.of_nat (length y_true)))
       end.

End sklearn.

(** ** The fold partition *)

(** The test index arrays of [KFold(n_splits=k).split] on [n_records]
    records. *)
Definition make_folds (n_records : nat) (k : Z) : result (list (list nat)) :=
  kf ← sklearn.KFold k;
  folds ← sklearn.split kf n_records;
  Ok (folds.*2).

(** ** The cross-validation loop *)

(** Body of the inner loop: the accuracy of one fold for one cutoff age. *)
Definition score_fold (titanic_train : DataFrame) (age : Z)
  (train test : list nat) : result float :=
  held_out ← pandas.iloc titanic_train test;
  table ← pandas.iloc titanic_train train;
  predicted ← pandas.apply
                (fun x => table_lookup_predictor_2 x table age) held_out;
  actual ← pandas.iloc (map Survived titanic_train) test;
  sklearn.accuracy_score actual predicted.

(** The inner loop over [kf.split(titanic_train)], building [cv_perf]. *)
Definition cv_perf (kf : sklearn.KFoldT) (titanic_train : DataFrame)
  (age : Z) : result (list float) :=
  folds ← sklearn.split kf (length titanic_train);
  mapM (fun fold => score_fold titanic_train age fold.1 fold.2) folds.

(** The outer loop over [ages]; [performance] is the notebook's global
    dictionary, threaded through the iterations.  An exception leaves the
    dictionary as it was when raised. *)
Fixpoint for_ages (kf : sklearn.KFoldT) (titanic_train : DataFrame)
  (ages : list Z) (performance : gmap Z (list float))
  : gmap Z (list float) * result unit :=
  match ages with
  | [] => (performance, Ok tt)
  | age :: rest =>
      match cv_perf kf titanic_train age with
      | Ok scores =>
          for_ages kf titanic_train rest (<[age := scores]> performance)
      | Raise e => (performance, Raise e)
      end
  end.

(** The evaluation as a whole: [kf = KFold(n_splits=k)], then
    [performance = dict()], then the loops.  The argument [performance]
    is the value the global holds before the run. *)
Definition evaluate (titanic_train : DataFrame) (ages : list Z) (k : Z)
  (performance : gmap Z (list float)) : gmap Z (list float) * result unit :=
  match sklearn.KFold k with
  | Raise e => (performance, Raise e)
  | Ok kf => for_ages kf titanic_train ages ∅
  end.

(** ** The evaluation as a pool of tasks

    Section 5 of the specification lets the scores of the (candidate, fold)
    pairs be computed in any order, every score written to the slot of its
    pair; section 4.3 goes through the pairs fold by fold, the notebook
    candidate by candidate. *)

(** One task: the score of candidate [task.1] on the fold at position
    [task.2], written to the slot of the pair. *)
Definition run_task (titanic_train : DataFrame)
  (folds : list (list nat * list nat)) (slots : gmap (Z * nat) float)
  (task : Z * nat) : gmap (Z * nat) float * result unit :=
  match folds !! task.2 with
  | Some fold =>
      match score_fold titanic_train task.1 fold.1 fold.2 with
      | Ok score => (<[task := score]> slots, Ok tt)
      | Raise e => (slots, Raise e)
      end
  | None => (slots, Raise IndexError)
  end.

(** The tasks in the order in which they are processed. *)
Fixpoint run_tasks (titanic_train : DataFrame)
  (folds : list (list nat * list nat)) (order : list (Z * nat))
  (slots : gmap (Z * nat) float) : gmap (Z * nat) float * result unit :=
  match order with
  | [] => (slots, Ok tt)
  | task :: rest =>
      match run_task titanic_train folds slots task with
      | (slots', Ok _) => run_tasks titanic_train folds rest slots'
      | (slots', Raise e) => (slots', Raise e)
      end
  end.

(** The mapping read off the slots: for every candidate the scores of the
    folds 0, 1, ..., k-1, in this order. *)
Definition gather (candidates : list Z) (k : nat)
  (slots : gmap (Z * nat) float) : gmap Z (list float) :=
  list_to_map
    ((fun h => (h, omap (fun f => slots !! (h, f)) (seq 0 k)))
       <$> candidates).

(** The evaluation with its tasks processed in the given order; a failure
    leaves no partial result. *)
Definition evaluate_tasks (titanic_train : DataFrame) (candidates : list Z)
  (k : Z) (order : list (Z * nat)) (performance : gmap Z (list float))
  : gmap Z (list float) * result unit :=
  match sklearn.KFold k with
  | Raise e => (performance, Raise e)
  | Ok kf =>
      match sklearn.split kf (length titanic_train) with
      | Raise e => (∅, Raise e)
      | Ok folds =>
          match run_tasks titanic_train folds order ∅ with
          | (slots, Ok _) => (gather candidates (length folds) slots, Ok tt)
          | (_, Raise e) => (∅, Raise e)
          end
      end
  end.

(** The order of section 4.3: folds outside, candidates inside. *)
Definition fold_major (candidates : list Z) (k : nat) : list (Z * nat) :=
  f ← seq 0 k; (fun h => (h, f)) <$> candidates.

(** The order of the notebook: candidates outside, folds inside. *)
Definition candidate_major (candidates : list Z) (k : nat)
  : list (Z * nat) :=
  h ← candidates; (fun f => (h, f)) <$> seq 0 k.

(** [order] processes every pair of a candidate and a fold, and nothing
    else; a pair may come more than once. *)
Definition covers (candidates : list Z) (k : nat) (order : list (Z * nat))
  : Prop :=
  forall h f, (h, f) ∈ order <-> h ∈ candidates /\ f < k.

(** ** The evaluation inside a session

    What a cell can reach besides its inputs: the generator of pseudo-random
    numbers that NumPy keeps for the process, from which scikit-learn draws
    when a splitter is asked to shuffle, and the global [performance]. *)

Record session : Type := mkSession {
  generator : N;
  performance_dict : gmap Z (list float)
}.

(** A call running in a session: the session it leaves and its result. *)
Definition cell (A : Type) : Type := session -> session * result A.

#[global] Instance cell_ret : MRet cell := fun A a s => (s, Ok a).
#[global] Instance cell_bind : MBind cell :=
  fun A B f m s =>
    match m s with
    | (s', Ok a) => f a s'
    | (s', Raise e) => (s', Raise e)
    end.

(** A call that touches nothing of the session. *)
Definition lift {A : Type} (r : result A) : cell A := fun s => (s, r).

(** [performance = dict()] and [performance[age] = cv_perf]. *)
Definition performance_reset : cell unit :=
  fun s => (mkSession (generator s) ∅, Ok tt).

Definition performance_setitem (age : Z) (scores : list float) : cell unit :=
  fun s =>
    (mkSession (generator s) (<[age := scores]> (performance_dict s)), Ok tt).

(** [KFold] with its [shuffle] option. *)
Record KFoldS : Type := mkKFoldS { s_n_splits : nat; s_shuffle : bool }.

Definition KFold_call (k : Z) (shuffle : bool) : result KFoldS :=
  if (k <=? 1)%Z then Raise ValueError
  else Ok (mkKFoldS (Z.to_nat k) shuffle).

Section Session.

(** [RandomState.shuffle]: the permuted indices and the generator after the
    draw.  The algorithm of the generator is not modelled; what follows is
    defined for every such function. *)
Variable rng_shuffle : N -> list nat -> list nat * N.

(** [kf.split(X)] in a session: when [shuffle] is set, the indices are
    permuted by the generator before they are cut into folds. *)
Definition split_in_session (kf : KFoldS) (n_samples : nat)
  : cell (list (list nat * list nat)) :=
  fun s =>
    if (n_samples <? s_n_splits kf) then (s, Raise ValueError)
    else
      let indices := seq 0 n_samples in
      let drawn := if s_shuffle kf then rng_shuffle (generator s) indices
                   else (indices, generator s) in
      (mkSession drawn.2 (performance_dict s),
       Ok (map (fun test_index =>
                  let test_mask := fun i => bool_decide (i ∈ test_index) in
                  (List.filter (fun i => negb (test_mask i)) indices,
                   List.filter test_mask indices))
             (sklearn.iter_test_indices drawn.1 0
                (sklearn.fold_sizes n_samples (s_n_splits kf))))).

(** [table_lookup_predictor_2] reads its three arguments and calls pandas
    on them; it names no global and draws no random number. *)
Definition predict_in_session (x : Row) (table : DataFrame) (age : Z)
  : cell Z :=
  lift (table_lookup_predictor_2 x table age).

(** [frame.apply(f, 1)] and a list comprehension, one call after the
    other. *)
Fixpoint apply_in_session {A B : Type} (f : A -> cell B) (frame : list A)
  : cell (list B) :=
  match frame with
  | [] => mret []
  | x :: rest =>
      y ← f x;
      ys ← apply_in_session f rest;
      mret (y :: ys)
  end.

Definition score_fold_in_session (titanic_train : DataFrame) (age : Z)
  (train test : list nat) : cell float :=
  held_out ← lift (pandas.iloc titanic_train test);
  table ← lift (pandas.iloc titanic_train train);
  predicted ← apply_in_session
                (fun x => predict_in_session x table age) held_out;
  actual ← lift (pandas.iloc (map Survived titanic_train) test);
  lift (sklearn.accuracy_score actual predicted).

Definition cv_perf_in_session (kf : KFoldS) (titanic_train : DataFrame)
  (age : Z) : cell (list float) :=
  folds ← split_in_session kf (length titanic_train);
  apply_in_session
    (fun fold => score_fold_in_session titanic_train age fold.1 fold.2)
    folds.

Fixpoint for_ages_in_session (kf : KFoldS) (titanic_train : DataFrame)
  (ages : list Z) : cell unit :=
  match ages with
  | [] => mret tt
  | age :: rest =>
      scores ← cv_perf_in_session kf titanic_train age;
      _ ← performance_setitem age scores;
      for_ages_in_session kf titanic_train rest
  end.

(** The cells of the evaluation with the splitter built as
    [KFold(n_splits=k, shuffle=shuffle)]. *)
Definition evaluate_with (shuffle : bool) (titanic_train : DataFrame)
  (ages : list Z) (k : Z) : cell unit :=
  kf ← lift (KFold_call k shuffle);
  _ ← performance_reset;
  for_ages_in_session kf titanic_train ages.

(** The notebook writes [KFold(n_splits=10)]: [shuffle] keeps its default,
    False. *)
Definition evaluate_in_session (titanic_train : DataFrame) (ages : list Z)
  (k : Z) : cell unit :=
  evaluate_with false titanic_train ages k.

End Session.

(** ** Reference notions used in the statements *)

(** The rows of a frame whose position satisfies [mask], positions counted
    from [offset]. *)
Fixpoint select_from {A : Type} (mask : nat -> bool) (offset : nat)
  (frame : list A) : list A :=
  match frame with
  | [] => []
  | x :: rest =>
      if mask offset then x :: select_from mask (S offset) rest
      else select_from mask (S offset) rest
  end.

(** Records of fold [g], and records outside of it. *)
Definition held_out (D : DataFrame) (g : list nat) : DataFrame :=
  select_from (fun i => bool_decide (i ∈ g)) 0 D.

Definition training (D : DataFrame) (g : list nat) : DataFrame :=
  select_from (fun i => negb (bool_decide (i ∈ g))) 0 D.

(** Number of rows of [rows] whose predicted label is their own. *)
Definition correct (table : DataFrame) (h : Z) (rows : DataFrame) : nat :=
  length (List.filter
            (fun x => match table_lookup_predictor_2 x table h with
                      | Ok l => (l =? Survived x)%Z
                      | Raise _ => false
                      end) rows).


(** The accuracy of candidate [h] on fold [g]: correct predictions over
    held-out records. *)
Definition fold_score (D : DataFrame) (h : Z) (g : list nat) : float :=
  Finite (Z.of_nat (correct (training D g) h (held_out D g))
          # Pos.of_nat (length (held_out D g))).

(** Contiguous blocks of the given sizes, starting at [current]. *)
Fixpoint blocks (current : nat) (sizes : list nat) : list (list nat) :=
  match sizes with
  | [] => []
  | size :: rest => seq current size :: blocks (current + size) rest
  end.

(** The count stored for label [k] in a Series (0 when absent). *)
Fixpoint slot (k : Z) (t : pandas.Series) : nat :=
  match t with
  | [] => 0
  | (k', c) :: rest => if (k' =? k)%Z then c else slot k rest
  end.

(** Order on the entries of a Series: by count, then by label. *)
Definition entry_lt (a b : Z * nat) : Prop :=
  a.2 < b.2 \/ (a.2 = b.2 /\ (a.1 < b.1)%Z).

(** [v] is a most frequent label of [col], and the greatest of them. *)
Definition most_frequent (col : list Z) (v : Z) : Prop :=
  v ∈ col /\
  forall w, w ∈ col ->
    count w col < count v col \/ (count w col = count v col /\ (w <= v)%Z).

(** ** Sample data

    Ten records in the shape of the specification's scenario, a query, and
    small reference tables. *)

Definition passenger (survived pclass : Z) (sex : string)
  (age sibsp parch : Z) : Row :=
  mkRow survived pclass sex (Finite (inject_Z age)) sibsp parch.

Definition sample : DataFrame :=
  [ passenger 0 1 "male" 5 0 0;   passenger 1 2 "female" 70 1 0;
    passenger 1 1 "male" 5 0 0;   passenger 0 2 "female" 70 1 0;
    passenger 1 1 "female" 5 0 1; passenger 0 1 "male" 70 0 0;
    passenger 1 2 "male" 5 1 1;   passenger 0 1 "male" 70 0 0;
    passenger 1 1 "male" 5 0 0;   passenger 1 2 "female" 70 1 0 ].

Definition query : Row := passenger 0 1 "male" 5 0 0.

(** Two rows that match [query], with labels 1 and 0. *)
Definition tie_table : DataFrame :=
  [ passenger 1 1 "male" 5 0 0; passenger 0 1 "male" 7 0 0 ].

(** Three rows, none of which matches [query]. *)
Definition other_table : DataFrame :=
  [ passenger 1 2 "female" 30 0 0; passenger 0 1 "male" 40 0 0;
    passenger 1 3 "male" 5 0 0 ].

(** ** The other cells of the notebook *)

(** [(titanic.Survived - predicted).abs().sum()], where [predicted] repeats
    the guess once per row: the error count of the constant prediction. *)
Definition error_count (survived : list Z) (g : Z) : Z :=
  let predicted := replicate (length survived) g in
  foldr Z.add 0%Z (Z.abs <$> zip_with Z.sub survived predicted).

(** The majority cell as a whole: the guess, then its error count. *)
Definition guess_errors (survived : list Z) : result Z :=
  g ← guess survived;
  Ok (error_count survived g).

(** [frame.apply(table_lookup_predictor, 1, table=table)]: the cells that
    build [tlu_train_predicted] and [tlu_test_predicted]. *)
Definition tlu_predicted (frame table : DataFrame) : result (list Z) :=
  pandas.apply (fun x => table_lookup_predictor x table) frame.

(** [accuracy_score(y_true=frame.Survived, y_pred=...)] on those
    predictions. *)
Definition tlu_accuracy (frame table : DataFrame) : result float :=
  predicted ← tlu_predicted frame table;
  sklearn.accuracy_score (map Survived frame) predicted.

(** Rows that look alike carry the same label. *)
Definition consistent (table : DataFrame) : Prop :=
  forall t1 t2, t1 ∈ table -> t2 ∈ table ->
    similar t1 t2 = true -> Survived t1 = Survived t2.

(** ** The feature selection of the ridge-regression cells *)

Module numpy.

(** [np.delete(arr, obj)] along one axis: the entries whose position is not
    listed in [obj].  A listed position beyond the end deletes nothing (the
    release of the notebook's time only warned about it). *)
Definition delete {A : Type} (arr : list A) (obj : list nat) : list A :=
  select_from (fun i => negb (bool_decide (i ∈ obj))) 0 arr.

(** [np.delete(arr, obj, axis=1)] on a matrix stored by rows. *)
Definition delete_axis1 {A : Type} (arr : list (list A)) (obj : list nat)
  : list (list A) :=
  map (fun row => delete row obj) arr.

End numpy.

(** [data_train = np.delete(data_train, [2, 6], axis=1)], and the same for
    [data_test]. *)
Definition drop_features {A : Type} (data : list (list A)) : list (list A) :=
  numpy.delete_axis1 data [2; 6].

(** ** The affinity matrix of the headline notebooks

    [Section 6/Hierarchical.ipynb] and
    [Section 7/LowDimensionalRepresentation.ipynb] compute the same matrix
    of Jaccard similarities between the 3-gram sets of the headlines. *)

Module headlines.

Inductive error : Type :=
| ZeroDivisionError
| IndexError.

Inductive outcome (T : Type) : Type :=
| Done (t : T)
| Fail (e : error).
Arguments Done {T} t.
Arguments Fail {T} e.

Section Affinity.
Context `{Countable A}.

(** [ngrams(sequence, n)] of NLTK, for [n >= 1] and without padding: the
    windows of [n] consecutive items. *)
Fixpoint ngrams (sequence : list A) (n : nat) : list (list A) :=
  match sequence with
  | [] => []
  | _ :: rest =>
      if (n <=? length sequence) then take n sequence :: ngrams rest n
      else []
  end.

(** [set(''.join(u) for u in ngrams(h.lower(), 3))], on the lowered
    headline; a 3-gram is kept as its three characters. *)
Definition headline_set (lowered : list A) : gset (list A) :=
  list_to_set (ngrams lowered 3).

(** [len(h1.intersection(h2))/len(h1.union(h2))]. *)
Definition jaccard (h1 h2 : gset (list A)) : outcome Q :=
  let union := size (h1 ∪ h2) in
  if (union =? 0) then Fail ZeroDivisionError
  else Done (Z.of_nat (size (h1 ∩ h2)) # Pos.of_nat union).

(** [np.zeros((n, n))], keyed by position. *)
Definition zeros (n : nat) : gmap (nat * nat) Q :=
  list_to_map
    (i ← seq 0 n; (fun j => ((i, j), 0%Q)) <$> seq 0 n).

(** The loop over [j in range(i, n)]. *)
Fixpoint for_j (headline_sets : list (gset (list A))) (i : nat)
  (js : list nat) (sims : gmap (nat * nat) Q)
  : outcome (gmap (nat * nat) Q) :=
  match js with
  | [] => Done sims
  | j :: rest =>
      match headline_sets !! i, headline_sets !! j with
      | Some h1, Some h2 =>
          match jaccard h1 h2 with
          | Done js =>
              for_j headline_sets i rest
                (<[(j, i) := js]> (<[(i, j) := js]> sims))
          | Fail e => Fail e
          end
      | _, _ => Fail IndexError
      end
  end.

(** The loop over [i in range(n)]. *)
Fixpoint for_i (headline_sets : list (gset (list A))) (rows : list nat)
  (sims : gmap (nat * nat) Q) : outcome (gmap (nat * nat) Q) :=
  match rows with
  | [] => Done sims
  | i :: rest =>
      match for_j headline_sets i
              (seq i (length headline_sets - i)) sims with
      | Done sims' => for_i headline_sets rest sims'
      | Fail e => Fail e
      end
  end.

Definition affinity (headline_sets : list (gset (list A)))
  : outcome (gmap (nat * nat) Q) :=
  let n := length headline_sets in
  for_i headline_sets (seq 0 n) (zeros n).

(** The same loops together with the matrix they leave behind: [sims] is
    an array filled in place, and after an exception it holds what was
    written before. *)
Fixpoint for_j_sims (headline_sets : list (gset (list A))) (i : nat)
  (js : list nat) (sims : gmap (nat * nat) Q)
  : gmap (nat * nat) Q * option error :=
  match js with
  | [] => (sims, None)
  | j :: rest =>
      match headline_sets !! i, headline_sets !! j with
      | Some h1, Some h2 =>
          match jaccard h1 h2 with
          | Done js =>
              for_j_sims headline_sets i rest
                (<[(j, i) := js]> (<[(i, j) := js]> sims))
          | Fail e => (sims, Some e)
          end
      | _, _ => (sims, Some IndexError)
      end
  end.

Fixpoint for_i_sims (headline_sets : list (gset (list A))) (rows : list nat)
  (sims : gmap (nat * nat) Q) : gmap (nat * nat) Q * option error :=
  match rows with
  | [] => (sims, None)
  | i :: rest =>
      match for_j_sims headline_sets i
              (seq i (length headline_sets - i)) sims with
      | (sims', None) => for_i_sims headline_sets rest sims'
      | (sims', Some e) => (sims', Some e)
      end
  end.

Definition affinity_sims (headline_sets : list (gset (list A)))
  : gmap (nat * nat) Q * option error :=
  let n := length headline_sets in
  for_i_sims headline_sets (seq 0 n) (zeros n).

End Affinity.

End headlines.

(** ** The elbow plot of [Section 6/EvaluatingClusteringModelResults.ipynb] *)

Module elbow.

(** What can stop the loop: an exception of the kinds above, or a value
    beyond the range of the array's integers. *)
Inductive error : Type :=
| Exn (e : exn)
| OverflowError.

Inductive outcome (T : Type) : Type :=
| Done (t : T)
| Fail (e : error).
Arguments Done {T} t.
Arguments Fail {T} e.

(** The whole part of a rational, rounding toward zero. *)
Definition trunc (q : Q) : Z := (Qnum q ÷ Z.pos (Qden q))%Z.

(** Storing a float into an int64 array converts it to a Python int first,
    which drops the fractional part and refuses NaN with ValueError, and
    then to a 64-bit integer, which refuses a value below -2^63 or above
    2^63 - 1 with OverflowError. *)
Definition to_int64 (value : float) : outcome Z :=
  match value with
  | NaN => Fail (Exn ValueError)
  | Finite q =>
      if ((- 2 ^ 63 <=? trunc q) && (trunc q <? 2 ^ 63))%Z
      then Done (trunc q)
      else Fail OverflowError
  end.

(** [arr[index] = value] on a one-dimensional int64 array: a negative index
    counts from the end, IndexError out of bounds; then the value is
    converted. *)
Definition setitem (arr : list Z) (index : Z) (value : float)
  : outcome (list Z) :=
  let n := Z.of_nat (length arr) in
  let position := if (index <? 0)%Z then (n + index)%Z else index in
  if ((position <? 0) || (n <=? position))%Z then Fail (Exn IndexError)
  else match to_int64 value with
       | Done stored => Done (<[Z.to_nat position := stored]> arr)
       | Fail e => Fail e
       end.

(** [for k in wcsse: wcsse[k - 1] = KMeans(n_clusters=k).fit(data).inertia_]:
    the iteration reads the array it is writing to.  [inertia call k] is
    what the fit of the given call returns for [k] clusters. *)
Fixpoint wcsse_loop (inertia : nat -> Z -> result float)
  (positions : list nat) (wcsse : list Z) : outcome (list Z) :=
  match positions with
  | [] => Done wcsse
  | i :: rest =>
      match wcsse !! i with
      | None => Done wcsse
      | Some k =>
          match inertia i k with
          | Raise e => Fail (Exn e)
          | Ok value =>
              match setitem wcsse (k - 1) value with
              | Done wcsse' => wcsse_loop inertia rest wcsse'
              | Fail e => Fail e
              end
          end
      end
  end.

(** The array handed to [plt.plot], from [np.arange(max_clusters) + 1]. *)
Definition wcsse_values (inertia : nat -> Z -> result float)
  (max_clusters : nat) : outcome (list Z) :=
  wcsse_loop inertia (seq 0 max_clusters)
    ((fun i => Z.of_nat i + 1)%Z <$> seq 0 max_clusters).

End elbow.

(** The Jaccard similarity of the sets at positions [i] and [j]. *)
Definition jaccard_index `{Countable A} (headline_sets : list (gset (list A)))
  (i j : nat) : Q :=
  let h1 := default ∅ (headline_sets !! i) in
  let h2 := default ∅ (headline_sets !! j) in
  Z.of_nat (size (h1 ∩ h2)) # Pos.of_nat (size (h1 ∪ h2)).

(** Three lowered headlines, characters as numbers, and a fit whose inertia
    is 7k/2 + 1/2 for k clusters. *)
Definition sample_headlines : list (list nat) :=
  [[1; 2; 3; 4]; [2; 3; 4; 5]; [1; 2; 3]].

Definition sample_inertia (call : nat) (k : Z) : result float :=
  Ok (Finite ((k * 7 + 1) # 2)).

(** Lowered headlines of which one has two characters only. *)
Definition short_headlines : list (list nat) :=
  [[1; 2; 3; 4]; [2; 3]; [1; 2; 3]].

(** ** More sample data *)


(** A generator whose shuffle reverses the indices on odd states. *)
Definition sample_shuffle (state : N) (indices : list nat)
  : list nat * N :=
  (if N.even state then indices else rev indices, N.succ state).

(** A table in which rows that look alike carry the same label. *)
Definition lookup_table : DataFrame :=
  [ passenger 1 1 "female" 30 0 0; passenger 0 3 "male" 20 0 0;
    passenger 1 1 "female" 35 0 0 ].

(** [tie_table] with its rows exchanged. *)
Definition tie_table_swapped : DataFrame :=
  [ passenger 0 1 "male" 7 0 0; passenger 1 1 "male" 5 0 0 ].

(** A survivor who otherwise looks like [query]. *)
Definition query_survivor : Row := passenger 1 1 "male" 6 0 0.

(** * Properties *)

(** ** The counting pass *)

Section Counting.
Import pandas.

Lemma bump_keys v (t : Series) x :
  x ∈ (bump v t).*1 <-> x = v \/ x ∈ t.*1.
Proof.
  induction t as [|[k c] t IH]; simpl.
  - rewrite list_elem_of_singleton, elem_of_nil. tauto.
  - destruct (Z.eqb_spec v k) as [->|Hne]; simpl.
    { rewrite !elem_of_cons. tauto. }
    destruct (Z.ltb_spec v k); simpl; rewrite !elem_of_cons; [tauto|].
    rewrite IH. tauto.
Qed.

Lemma bump_sorted v (t : Series) :
  StronglySorted Z.lt t.*1 -> StronglySorted Z.lt (bump v t).*1.
Proof.
  induction t as [|[k c] t IH]; simpl; intros Hs.
  - repeat constructor.
  - apply StronglySorted_inv in Hs as [Hs Hall].
    destruct (Z.eqb_spec v k) as [->|Hne]; simpl.
    + by constructor.
    + destruct (Z.ltb_spec v k); simpl.
      * constructor; [by constructor|].
        constructor; [done|]. eapply Forall_impl; [exact Hall|].
        simpl; intros; lia.
      * constructor; [by apply IH|].
        apply Forall_forall. intros x Hx. apply bump_keys in Hx as [->|Hx].
        -- lia.
        -- by eapply Forall_forall in Hall.
Qed.

Lemma slot_absent k (t : Series) : k ∉ t.*1 -> slot k t = 0.
Proof.
  induction t as [|[k' c] t IH]; simpl; [done|].
  intros Hk. apply not_elem_of_cons in Hk as [Hne Hk].
  destruct (Z.eqb_spec k' k); [congruence|]. by apply IH.
Qed.

Lemma sorted_head_absent k (t : list Z) :
  Forall (Z.lt k) t -> k ∉ t.
Proof.
  intros Hall Hin. eapply Forall_forall in Hall; [|exact Hin]. lia.
Qed.

Lemma bump_slot v k (t : Series) :
  StronglySorted Z.lt t.*1 ->
  slot k (bump v t) = if decide (k = v) then S (slot k t) else slot k t.
Proof.
  induction t as [|[k' c] t IH]; simpl; intros Hs.
  - destruct (Z.eqb_spec v k); case_decide; congruence.
  - apply StronglySorted_inv in Hs as [Hs Hall].
    destruct (Z.eqb_spec v k') as [->|Hne]; simpl.
    + destruct (Z.eqb_spec k' k); case_decide; congruence.
    + destruct (Z.ltb_spec v k'); simpl.
      * destruct (Z.eqb_spec v k) as [->|]; case_decide; try congruence.
        destruct (Z.eqb_spec k' k); [lia|].
        rewrite slot_absent; [done|]. apply sorted_head_absent.
        eapply Forall_impl; [exact Hall|]. simpl; intros; lia.
      * destruct (Z.eqb_spec k' k) as [->|]; [by case_decide; [lia|]|].
        by apply IH.
Qed.

Lemma slot_elem k c (t : Series) :
  StronglySorted Z.lt t.*1 -> (k, c) ∈ t -> slot k t = c.
Proof.
  induction t as [|[k' c'] t IH]; simpl; intros Hs Hin.
  - by apply elem_of_nil in Hin.
  - apply StronglySorted_inv in Hs as [Hs Hall].
    apply elem_of_cons in Hin as [Heq|Hin].
    + inversion Heq; subst. by rewrite Z.eqb_refl.
    + destruct (Z.eqb_spec k' k) as [->|]; [|by apply IH].
      exfalso. apply (sorted_head_absent k t.*1 Hall).
      apply list_elem_of_fmap. by exists (k, c).
Qed.

Lemma elem_slot k (t : Series) : k ∈ t.*1 -> (k, slot k t) ∈ t.
Proof.
  induction t as [|[k' c'] t IH]; simpl; intros Hin.
  - by apply elem_of_nil in Hin.
  - destruct (Z.eqb_spec k' k) as [->|Hne]; [left|].
    apply elem_of_cons in Hin as [?|Hin]; [congruence|]. right. by apply IH.
Qed.

Lemma count_snoc k v (l : list Z) :
  count k (l ++ [v]) = if decide (k = v) then S (count k l) else count k l.
Proof.
  unfold count. rewrite count_occ_app. simpl.
  destruct (Z.eq_dec v k); case_decide; try congruence; lia.
Qed.

Lemma count_pos k (l : list Z) : k ∈ l <-> 0 < count k l.
Proof. unfold count. rewrite list_elem_of_In. apply count_occ_In. Qed.

(** What the hash table holds after counting [values] on top of [seen]. *)
Lemma counting_invariant (values seen : list Z) (t : Series) :
  StronglySorted Z.lt t.*1 ->
  (forall k, k ∈ t.*1 <-> k ∈ seen) ->
  (forall k, slot k t = count k seen) ->
  let t' := fold_left (fun table val => bump val table) values t in
  StronglySorted Z.lt t'.*1 /\
  (forall k, k ∈ t'.*1 <-> k ∈ seen ++ values) /\
  (forall k, slot k t' = count k (seen ++ values)).
Proof.
  revert seen t. induction values as [|v values IH]; intros seen t Hs Hk Hc.
  - simpl. by rewrite app_nil_r.
  - simpl. replace (seen ++ v :: values) with ((seen ++ [v]) ++ values)
      by (by rewrite <- app_assoc).
    apply IH.
    + by apply bump_sorted.
    + intros k. rewrite bump_keys, elem_of_app, list_elem_of_singleton, Hk.
      tauto.
    + intros k. rewrite bump_slot, count_snoc, Hc; done.
Qed.

Lemma value_count_int64_elem (values : list Z) k c :
  (k, c) ∈ value_count_int64 values <-> k ∈ values /\ c = count k values.
Proof.
  destruct (counting_invariant values [] [] ) as (Hs & Hk & Hc);
    [constructor|done|done|]. simpl in *.
  fold (value_count_int64 values) in *. split.
  - intros Hin. split.
    + apply Hk, list_elem_of_fmap. by exists (k, c).
    + rewrite <- Hc. symmetry. by apply slot_elem.
  - intros [Hin ->]. rewrite <- Hc. by apply elem_slot, Hk.
Qed.

Lemma value_count_int64_sorted (values : list Z) :
  StronglySorted Z.lt (value_count_int64 values).*1.
Proof.
  by destruct (counting_invariant values [] []) as (Hs & _);
    [constructor|done|done|].
Qed.

End Counting.

(** ** Sorting the counts and taking the first maximum *)

Section Argmax.
Import pandas.

Lemma insert_by_count_perm x (s : Series) : insert_by_count x s ≡ₚ x :: s.
Proof.
  induction s as [|y s IH]; simpl; [done|].
  destruct (x.2 <=? y.2); [done|]. rewrite IH. apply Permutation_swap.
Qed.

Lemma argsort_perm (s : Series) : argsort s ≡ₚ s.
Proof.
  induction s as [|x s IH]; simpl; [done|].
  by rewrite insert_by_count_perm, IH.
Qed.

Lemma value_counts_perm (values : list Z) :
  value_counts values ≡ₚ value_count_int64 values.
Proof.
  unfold value_counts, sort_values_descending.
  by rewrite <- Permutation_rev, argsort_perm.
Qed.

Lemma value_counts_elem (values : list Z) k c :
  (k, c) ∈ value_counts values <-> k ∈ values /\ c = count k values.
Proof. by rewrite value_counts_perm, value_count_int64_elem. Qed.

Lemma value_counts_nil (values : list Z) :
  value_counts values = [] <-> values = [].
Proof.
  split.
  - intros Hnil. destruct values as [|v values]; [done|].
    assert ((v, count v (v :: values)) ∈ value_counts (v :: values)) as Hin.
    { apply value_counts_elem. split; [left|done]. }
    rewrite Hnil in Hin. by apply elem_of_nil in Hin.
  - by intros ->.
Qed.

(** Inserting an entry whose label is below every label already present
    keeps the entries ordered by count, then label. *)
Lemma insert_by_count_sorted x (s : Series) :
  Forall (fun y => (x.1 < y.1)%Z) s ->
  StronglySorted entry_lt s ->
  StronglySorted entry_lt (insert_by_count x s).
Proof.
  induction s as [|y s IH]; simpl; intros Hlab Hs.
  - repeat constructor.
  - apply Forall_cons in Hlab as [Hxy Hlab].
    apply StronglySorted_inv in Hs as [Hs Hall].
    destruct (Nat.leb_spec x.2 y.2) as [Hle|Hgt].
    + constructor; [by constructor|].
      assert (entry_lt x y) as Hx by (unfold entry_lt; lia).
      constructor; [done|].
      apply Forall_forall. intros z Hz.
      pose proof (proj1 (Forall_forall _ _) Hall z Hz) as Hyz.
      pose proof (proj1 (Forall_forall _ _) Hlab z Hz) as Hxz.
      unfold entry_lt in *. simpl in *. lia.
    + constructor; [by apply IH|].
      apply Forall_forall. intros z Hz.
      rewrite insert_by_count_perm in Hz.
      apply elem_of_cons in Hz as [->|Hz].
      * unfold entry_lt. lia.
      * by eapply Forall_forall in Hall.
Qed.

Lemma argsort_sorted (s : Series) :
  StronglySorted Z.lt s.*1 -> StronglySorted entry_lt (argsort s).
Proof.
  induction s as [|x s IH]; simpl; intros Hs; [constructor|].
  apply StronglySorted_inv in Hs as [Hs Hall].
  apply insert_by_count_sorted; [|by apply IH].
  apply Forall_forall. intros y Hy. rewrite argsort_perm in Hy.
  eapply Forall_forall in Hall; [exact Hall|].
  apply list_elem_of_fmap. by exists y.
Qed.

Lemma idxmax_from_head best (s : Series) :
  Forall (fun p => p.2 <= best.2) s -> idxmax_from best s = best.1.
Proof.
  induction s as [|p s IH]; simpl; intros Hall; [done|].
  apply Forall_cons in Hall as [Hp Hall].
  destruct (Nat.ltb_spec best.2 p.2); [lia|]. by apply IH.
Qed.

(** In a Series ordered by decreasing count and label, [argmax] is the
    label of the first row. *)
Lemma argmax_rev_sorted (s : Series) p :
  StronglySorted entry_lt (s ++ [p]) -> argmax (rev (s ++ [p])) = Ok p.1.
Proof.
  intros Hs. rewrite rev_app_distr. simpl. f_equal.
  apply idxmax_from_head, Forall_forall. intros q Hq.
  apply list_elem_of_In, in_rev, list_elem_of_In in Hq.
  assert (entry_lt q p) as Hqp.
  { eapply StronglySorted_app_1_elem_of; [exact Hs|exact Hq|left]. }
  unfold entry_lt in Hqp. lia.
Qed.

(** [value_counts().argmax()] of a non-empty column: the most frequent
    label, the greatest one when several are equally frequent. *)
Lemma argmax_value_counts (col : list Z) :
  col <> [] ->
  exists v, argmax (value_counts col) = Ok v /\ most_frequent col v.
Proof.
  intros Hne.
  pose proof (argsort_sorted _ (value_count_int64_sorted col)) as Hs.
  pose proof (value_counts_elem col) as Helem.
  unfold value_counts, sort_values_descending in *.
  destruct (argsort (value_count_int64 col)) as [|p0 s0] eqn:Hsort.
  { exfalso. apply Hne, value_counts_nil.
    unfold value_counts, sort_values_descending. by rewrite Hsort. }
  destruct (exists_last (l:=p0 :: s0)) as (s & p & Hlast); [done|].
  rewrite Hlast in *. clear Hlast p0 s0.
  exists p.1. split; [by apply argmax_rev_sorted|].
  assert (forall k c, (k, c) ∈ s ++ [p] <-> k ∈ col /\ c = count k col)
    as Helem'.
  { intros k c. rewrite <- Helem, !list_elem_of_In. apply in_rev. }
  assert (p.1 ∈ col /\ p.2 = count p.1 col) as [Hp1 Hp2].
  { apply Helem'. destruct p. apply elem_of_app. right. left. }
  split; [done|]. intros w Hw.
  assert ((w, count w col) ∈ s ++ [p]) as Hin by (by apply Helem').
  apply elem_of_app in Hin as [Hin|Hin].
  - assert (entry_lt (w, count w col) p) as Hwp.
    { eapply StronglySorted_app_1_elem_of; [exact Hs|exact Hin|left]. }
    unfold entry_lt in Hwp. simpl in Hwp. lia.
  - apply list_elem_of_singleton in Hin. subst p. simpl. lia.
Qed.

Lemma argmax_value_counts_nil : argmax (value_counts []) = Raise ValueError.
Proof. reflexivity. Qed.

Lemma most_frequent_unique (col : list Z) v w :
  most_frequent col v -> most_frequent col w -> v = w.
Proof.
  intros [Hv Hmv] [Hw Hmw].
  specialize (Hmv w Hw). specialize (Hmw v Hv). lia.
Qed.

End Argmax.

(** ** The predictors *)

Section Predictors.
Import pandas.

Lemma most_frequent_max (col : list Z) v :
  most_frequent col v -> forall w, count w col <= count v col.
Proof.
  intros [Hv Hm] w. destruct (decide (w ∈ col)) as [Hw|Hw].
  - specialize (Hm w Hw). lia.
  - rewrite count_pos in Hw. lia.
Qed.

Lemma length_zero_iff {A : Type} (l : list A) :
  (length l =? 0) = true <-> l = [].
Proof. destruct l; simpl; split; congruence. Qed.

(** The column the answer of [table_lookup_predictor_2] is drawn from:
    the labels of the similar rows, or of the whole table when there are
    none. *)
Ltac predictor_spec :=
  match goal with
  | |- context [pandas.argmax (pandas.value_counts (map Survived ?table))] =>
      let d := fresh "d" in
      let Hd := fresh "Hd" in
      let Hmd := fresh "Hmd" in
      let Hlen := fresh "Hlen" in
      let Hnil := fresh "Hnil" in
      destruct (argmax_value_counts (map Survived table)) as (d & Hd & Hmd);
      [by destruct table|];
      rewrite Hd; simpl;
      match goal with
      | |- context [length ?tab =? 0] =>
          destruct (length tab =? 0) eqn:Hlen;
          [by exists d
          |apply argmax_value_counts; intros Hnil;
           apply length_zero_iff in Hnil; congruence]
      end
  end.

Lemma table_lookup_predictor_2_spec (x : Row) (table : DataFrame) (age : Z) :
  table <> [] ->
  let similar_tab := map Survived (List.filter (similar_2 age x) table) in
  let col := if (length similar_tab =? 0) then map Survived table
             else similar_tab in
  exists v, table_lookup_predictor_2 x table age = Ok v /\ most_frequent col v.
Proof.
  intros Hne similar_tab col. subst col similar_tab.
  unfold table_lookup_predictor_2. predictor_spec.
Qed.

Lemma table_lookup_predictor_spec (x : Row) (table : DataFrame) :
  table <> [] ->
  let similar_tab := map Survived (List.filter (similar x) table) in
  let col := if (length similar_tab =? 0) then map Survived table
             else similar_tab in
  exists v, table_lookup_predictor x table = Ok v /\ most_frequent col v.
Proof.
  intros Hne similar_tab col. subst col similar_tab.
  unfold table_lookup_predictor. predictor_spec.
Qed.

(** On an empty reference table the default label cannot be computed. *)
Lemma table_lookup_predictor_2_empty (x : Row) (age : Z) :
  table_lookup_predictor_2 x [] age = Raise ValueError.
Proof. reflexivity. Qed.

Lemma table_lookup_predictor_empty (x : Row) :
  table_lookup_predictor x [] = Raise ValueError.
Proof. reflexivity. Qed.

Lemma filter_none {A : Type} (f : A -> bool) (l : list A) :
  (forall a, a ∈ l -> f a = false) -> List.filter f l = [].
Proof.
  induction l as [|a l IH]; simpl; intros Hall; [done|].
  rewrite (Hall a) by left. apply IH. intros b Hb. apply Hall. by right.
Qed.

Lemma filter_labels_subset (f : Row -> bool) (table : DataFrame) v :
  v ∈ map Survived (List.filter f table) -> v ∈ map Survived table.
Proof.
  rewrite !list_elem_of_In, !in_map_iff. intros (t & Ht & Hin).
  apply filter_In in Hin as [Hin _]. eauto.
Qed.

(** The ageless predictor falls back on the default label in the same
    way. *)
Lemma table_lookup_predictor_no_match (x : Row) (table : DataFrame) :
  table <> [] ->
  (forall t, t ∈ table -> similar x t = false) ->
  exists d,
    table_lookup_predictor x table = Ok d /\
    argmax (value_counts (map Survived table)) = Ok d /\
    d ∈ map Survived table /\
    forall w, count w (map Survived table) <= count d (map Survived table).
Proof.
  intros Hne Hnone.
  destruct (argmax_value_counts (map Survived table)) as (d & Hd & Hmd).
  { by destruct table. }
  exists d. unfold table_lookup_predictor. rewrite Hd. simpl.
  rewrite filter_none by done. simpl.
  repeat split; try done; [apply Hmd|by apply most_frequent_max].
Qed.

Lemma table_lookup_predictor_label_in_table (x : Row) (table : DataFrame) :
  table <> [] ->
  exists l, table_lookup_predictor x table = Ok l /\ l ∈ map Survived table.
Proof.
  intros Hne.
  destruct (table_lookup_predictor_spec x table Hne) as (v & Hv & Hin & _).
  exists v. split; [done|].
  destruct (length _ =? 0); [done|]. by eapply filter_labels_subset.
Qed.

(** The majority cell of the notebook and [value_counts().argmax()] agree
    on a 0/1 column: equally frequent labels are resolved towards 1. *)
Lemma getitem_elem (s : Series) key c :
  getitem s key = Ok c -> (key, c) ∈ s.
Proof.
  induction s as [|[k c'] s IH]; simpl; [done|].
  destruct (Z.eqb_spec k key) as [->|]; intros Heq.
  - inversion Heq. left.
  - right. by apply IH.
Qed.

Lemma guess_is_argmax (survived : list Z) g :
  Forall (fun v => v = 0%Z \/ v = 1%Z) survived ->
  guess survived = Ok g ->
  argmax (value_counts survived) = Ok g.
Proof.
  intros Hbin. unfold guess.
  destruct (getitem (value_counts survived) 0) as [n0|] eqn:H0; [|done].
  destruct (getitem (value_counts survived) 1) as [n1|] eqn:H1; [|done].
  simpl. intros Hg. inversion Hg as [Hg']. clear Hg.
  apply getitem_elem, value_counts_elem in H0 as [Hin0 ->].
  apply getitem_elem, value_counts_elem in H1 as [Hin1 ->].
  destruct (argmax_value_counts survived) as (v & Hv & Hin & Hm).
  { intros ->. by apply elem_of_nil in Hin0. }
  rewrite Hv. f_equal.
  pose proof (Hm _ Hin0). pose proof (Hm _ Hin1).
  eapply Forall_forall in Hbin; [|exact Hin].
  destruct (Nat.ltb_spec (count 1 survived) (count 0 survived));
    destruct Hbin; subst v; lia.
Qed.

End Predictors.

(** ** The fold partition *)

Section Folds.
Import sklearn.

Lemma fold_sizes_length n k : k <> 0 -> length (fold_sizes n k) = k.
Proof.
  intros Hk. unfold fold_sizes. rewrite length_app, !length_replicate.
  pose proof (Nat.mod_upper_bound n k Hk). lia.
Qed.

Lemma fold_sizes_sum n k : k <> 0 -> sum_list (fold_sizes n k) = n.
Proof.
  intros Hk. unfold fold_sizes. rewrite sum_list_with_app, !sum_list_replicate.
  pose proof (Nat.mod_upper_bound n k Hk).
  pose proof (Nat.div_mod_eq n k). nia.
Qed.

Lemma fold_sizes_elem n k s :
  s ∈ fold_sizes n k -> s = n / k \/ s = n / k + 1.
Proof.
  unfold fold_sizes. rewrite elem_of_app, !elem_of_replicate. tauto.
Qed.

Lemma fold_sizes_bounds n k s :
  2 <= k <= n -> s ∈ fold_sizes n k -> 1 <= s < n.
Proof.
  intros Hk. unfold fold_sizes. rewrite elem_of_app, !elem_of_replicate.
  pose proof (Nat.div_mod_eq n k).
  assert (1 <= n / k) by (apply Nat.div_str_pos; lia).
  intros [[-> Hmod]|[-> _]]; nia.
Qed.

Lemma slice_seq n a s : a + s <= n -> slice (seq 0 n) a (a + s) = seq a s.
Proof.
  intros Hle. unfold slice. rewrite drop_seq, take_seq. f_equal; lia.
Qed.

Lemma iter_test_indices_blocks n current sizes :
  current + sum_list sizes <= n ->
  iter_test_indices (seq 0 n) current sizes = blocks current sizes.
Proof.
  revert current. induction sizes as [|s sizes IH]; simpl; intros c Hle.
  - done.
  - rewrite slice_seq by lia. f_equal. apply IH. lia.
Qed.

Lemma blocks_length current sizes :
  length (blocks current sizes) = length sizes.
Proof.
  revert current. induction sizes as [|s sizes IH]; simpl; intros c; auto.
Qed.

Lemma blocks_sizes current sizes : length <$> blocks current sizes = sizes.
Proof.
  revert current. induction sizes as [|s sizes IH]; simpl; intros c; [done|].
  by rewrite length_seq, IH.
Qed.

Lemma blocks_concat current sizes :
  concat (blocks current sizes) = seq current (sum_list sizes).
Proof.
  revert current. induction sizes as [|s sizes IH]; simpl; intros c; [done|].
  by rewrite IH, seq_app.
Qed.

Lemma blocks_elem current sizes g :
  g ∈ blocks current sizes ->
  exists a s, g = seq a s /\ s ∈ sizes /\
              current <= a /\ a + s <= current + sum_list sizes.
Proof.
  revert current. induction sizes as [|s sizes IH]; simpl; intros c Hg.
  - by apply elem_of_nil in Hg.
  - apply elem_of_cons in Hg as [->|Hg].
    + exists c, s. repeat split; [left|lia..].
    + destruct (IH _ Hg) as (a & s' & -> & Hs' & Hca & Hle).
      exists a, s'. repeat split; [by right|lia..].
Qed.

Lemma filter_all {A : Type} (f : A -> bool) (l : list A) :
  (forall a, a ∈ l -> f a = true) -> List.filter f l = l.
Proof.
  induction l as [|a l IH]; simpl; intros Hall; [done|].
  rewrite (Hall a) by left. f_equal. apply IH. intros b Hb. apply Hall.
  by right.
Qed.

(** Selecting the indices through the test mask of a block gives the
    block back. *)
Lemma filter_mask_block n a s :
  a + s <= n ->
  List.filter (fun i => bool_decide (i ∈ seq a s)) (seq 0 n) = seq a s.
Proof.
  intros Hle. replace n with (a + (s + (n - a - s))) by lia.
  rewrite !seq_app, !List.filter_app. simpl.
  rewrite (filter_none _ (seq 0 a)), (filter_all _ (seq a s)),
    (filter_none _ (seq (a + s) _)).
  - by rewrite app_nil_r.
  - intros i Hi. apply bool_decide_eq_false. rewrite !elem_of_seq in *. lia.
  - intros i Hi. by apply bool_decide_eq_true.
  - intros i Hi. apply bool_decide_eq_false. rewrite !elem_of_seq in *. lia.
Qed.

Lemma split_in_range n k :
  2 <= k <= n ->
  split (mkKFold k) n =
  Ok (map (fun g => (List.filter (fun i => negb (bool_decide (i ∈ g)))
                       (seq 0 n), g))
          (blocks 0 (fold_sizes n k))).
Proof.
  intros Hk. unfold split. simpl.
  destruct (Nat.ltb_spec n k); [lia|]. f_equal.
  rewrite iter_test_indices_blocks by (rewrite fold_sizes_sum; lia).
  apply map_ext_in. intros g Hg. f_equal.
  apply list_elem_of_In, blocks_elem in Hg as (a & s & -> & _ & _ & Hle).
  rewrite fold_sizes_sum in Hle by lia. by apply filter_mask_block.
Qed.

Lemma make_folds_in_range n (k : Z) :
  (2 <= k <= Z.of_nat n)%Z ->
  make_folds n k = Ok (blocks 0 (fold_sizes n (Z.to_nat k))).
Proof.
  intros Hk. unfold make_folds, KFold.
  destruct (Z.leb_spec k 1); [lia|]. simpl.
  rewrite split_in_range by lia. simpl. f_equal.
  rewrite <- list_fmap_compose. apply list_fmap_id.
Qed.

Lemma concat_NoDup_disjoint {A : Type} (gs : list (list A)) i j g1 g2 x :
  NoDup (concat gs) -> i <> j ->
  gs !! i = Some g1 -> gs !! j = Some g2 -> x ∈ g1 -> x ∉ g2.
Proof.
  assert (forall (gs : list (list A)) j g, gs !! j = Some g ->
            forall y, y ∈ g -> y ∈ concat gs) as Hsub.
  { intros gs' j' g Hg y Hy. apply list_elem_of_In, in_concat. exists g.
    split; apply list_elem_of_In; [|done]. by eapply list_elem_of_lookup_2. }
  revert i j. induction gs as [|g gs IH]; intros i j Hnd Hij Hi Hj Hx1 Hx2.
  - done.
  - simpl in Hnd. apply NoDup_app in Hnd as (_ & Hdis & Hnd).
    destruct i as [|i], j as [|j]; simpl in *; simplify_eq.
    + eapply Hdis; [exact Hx1|]. by eapply Hsub.
    + eapply Hdis; [exact Hx2|]. by eapply Hsub.
    + eapply (IH i j); eauto.
Qed.

End Folds.

(** ** One fold of the evaluation *)

Section OneFold.
Import pandas sklearn.

Lemma mapM_ok {A B : Type} (f : A -> result B) (l : list A) :
  (forall a, a ∈ l -> exists b, f a = Ok b) ->
  exists k, mapM f l = Ok k /\ Forall2 (fun a b => f a = Ok b) l k.
Proof.
  induction l as [|a l IH]; intros Hall.
  - exists []. by split; [|constructor].
  - destruct (Hall a) as (b & Hb); [left|].
    destruct IH as (k & Hk & Hall2).
    { intros a' Ha'. apply Hall. by right. }
    exists (b :: k). split; [|by constructor].
    simpl. rewrite Hb. simpl. rewrite Hk. done.
Qed.

Lemma mapM_ok_map {A B C : Type} (f : B -> result C) (p : A -> B)
  (g : A -> C) (l : list A) :
  (forall a, a ∈ l -> f (p a) = Ok (g a)) ->
  mapM f (map p l) = Ok (map g l).
Proof.
  induction l as [|a l IH]; intros Hall; [done|].
  simpl. rewrite (Hall a) by left. simpl. rewrite IH; [done|].
  intros a' Ha'. apply Hall. by right.
Qed.

(** Positional selection through a boolean mask over [seq]. *)
Lemma iloc_filter_from {A : Type} (mask : nat -> bool) (pre D : list A) :
  iloc (pre ++ D) (List.filter mask (seq (length pre) (length D)))
  = Ok (select_from mask (length pre) D).
Proof.
  revert pre. induction D as [|x D IH]; intros pre; [done|].
  simpl. specialize (IH (pre ++ [x])).
  rewrite length_app, <- app_assoc in IH. simpl in IH.
  rewrite Nat.add_1_r in IH.
  destruct (mask (length pre)); [|exact IH].
  unfold iloc in *. simpl. rewrite list_lookup_middle by done. simpl.
  by rewrite IH.
Qed.

Lemma iloc_filter {A : Type} (mask : nat -> bool) (D : list A) :
  iloc D (List.filter mask (seq 0 (length D))) = Ok (select_from mask 0 D).
Proof. apply (iloc_filter_from mask [] D). Qed.

Lemma select_from_map {A B : Type} (f : A -> B) mask offset (D : list A) :
  select_from mask offset (map f D) = map f (select_from mask offset D).
Proof.
  revert offset. induction D as [|x D IH]; intros o; simpl; [done|].
  destruct (mask o); simpl; by rewrite IH.
Qed.

Lemma select_from_length {A : Type} mask offset (D : list A) :
  length (select_from mask offset D)
  = length (List.filter mask (seq offset (length D))).
Proof.
  revert offset. induction D as [|x D IH]; intros o; simpl; [done|].
  destruct (mask o); simpl; by rewrite IH.
Qed.

Lemma select_from_partition {A : Type} mask offset (D : list A) :
  length (select_from mask offset D)
  + length (select_from (fun i => negb (mask i)) offset D) = length D.
Proof.
  revert offset. induction D as [|x D IH]; intros o; simpl; [done|].
  specialize (IH (S o)). destruct (mask o); simpl; lia.
Qed.

Lemma held_out_length (D : DataFrame) a s :
  a + s <= length D -> length (held_out D (seq a s)) = s.
Proof.
  intros Hle. unfold held_out.
  by rewrite select_from_length, filter_mask_block, length_seq.
Qed.

Lemma training_length (D : DataFrame) a s :
  a + s <= length D -> length (training D (seq a s)) = length D - s.
Proof.
  intros Hle. pose proof (held_out_length D a s Hle) as Hh.
  pose proof (select_from_partition
                (fun i => bool_decide (i ∈ seq a s)) 0 D) as Hp.
  unfold held_out, training in *. lia.
Qed.

Lemma correct_le (table : DataFrame) h (rows : DataFrame) :
  correct table h rows <= length rows.
Proof. unfold correct. apply filter_length_le. Qed.

Lemma count_equal_correct (table : DataFrame) h (rows : DataFrame)
  (predicted : list Z) :
  Forall2 (fun x y => table_lookup_predictor_2 x table h = Ok y)
    rows predicted ->
  count_equal (map Survived rows) predicted = correct table h rows.
Proof.
  unfold correct. induction 1 as [|x y rows predicted Hxy _ IH]; [done|].
  simpl. rewrite Hxy, IH, (Z.eqb_sym y).
  by destruct (Survived x =? y)%Z.
Qed.

(** The body of the inner loop on a block that leaves training records. *)
Lemma score_fold_block (D : DataFrame) (h : Z) a s :
  1 <= s -> a + s <= length D -> s < length D ->
  score_fold D h
    (List.filter (fun i => negb (bool_decide (i ∈ seq a s)))
       (seq 0 (length D)))
    (seq a s)
  = Ok (fold_score D h (seq a s)).
Proof.
  intros Hs Hle Hlt. unfold score_fold.
  assert (forall (A : Type) (X : list A), length X = length D ->
            iloc X (seq a s)
            = Ok (select_from (fun i => bool_decide (i ∈ seq a s)) 0 X))
    as Htest.
  { intros A X HX. rewrite <- iloc_filter, HX. f_equal.
    symmetry. by apply filter_mask_block. }
  rewrite (Htest _ D), (Htest _ (map Survived D)), iloc_filter
    by (by rewrite ?length_map).
  simpl. fold (held_out D (seq a s)). fold (training D (seq a s)).
  destruct (mapM_ok
              (fun x => table_lookup_predictor_2 x (training D (seq a s)) h)
              (held_out D (seq a s))) as (predicted & Hp & Hall).
  { intros x _.
    destruct (table_lookup_predictor_2_spec x (training D (seq a s)) h)
      as (v & Hv & _); [|by exists v].
    intros Hnil. pose proof (training_length D a s Hle) as Hlen.
    rewrite Hnil in Hlen. simpl in Hlen. lia. }
  unfold apply. rewrite Hp. simpl.
  rewrite select_from_map. fold (held_out D (seq a s)).
  unfold accuracy_score. apply Forall2_length in Hall as Hlen.
  rewrite length_map, <- Hlen, Nat.eqb_refl. simpl.
  pose proof (held_out_length D a s Hle) as Hh.
  destruct (length (held_out D (seq a s))) as [|m] eqn:Hm; [lia|].
  unfold fold_score. rewrite Hm. by rewrite (count_equal_correct _ _ _ _ Hall).
Qed.

End OneFold.

(** ** The loops *)

Section Loops.
Import pandas sklearn.

(** In range, the splitter yields the blocks, and every fold is scored. *)
Lemma split_scored (D : DataFrame) k :
  2 <= k <= length D ->
  exists folds,
    split (mkKFold k) (length D) = Ok folds /\
    folds.*2 = blocks 0 (fold_sizes (length D) k) /\
    forall fold h, fold ∈ folds ->
      score_fold D h fold.1 fold.2 = Ok (fold_score D h fold.2).
Proof.
  intros Hk. eexists. split; [by apply split_in_range|]. split.
  - rewrite <- list_fmap_compose. apply list_fmap_id.
  - intros fold h Hin. apply list_elem_of_fmap in Hin as (g & -> & Hg).
    simpl. apply blocks_elem in Hg as (a & s & -> & Hs & _ & Hle).
    rewrite fold_sizes_sum in Hle by lia.
    apply fold_sizes_bounds in Hs; [|done].
    apply score_fold_block; lia.
Qed.

Lemma split_too_few kf n : n < n_splits kf -> split kf n = Raise ValueError.
Proof.
  intros Hlt. unfold split. by destruct (Nat.ltb_spec n (n_splits kf)); [|lia].
Qed.

Lemma cv_perf_scored kf (D : DataFrame) folds h :
  split kf (length D) = Ok folds ->
  (forall fold h, fold ∈ folds ->
     score_fold D h fold.1 fold.2 = Ok (fold_score D h fold.2)) ->
  cv_perf kf D h = Ok (map (fold_score D h) folds.*2).
Proof.
  intros Hsplit Hscore. unfold cv_perf. rewrite Hsplit. simpl.
  rewrite <- (map_id folds) at 1.
  replace (map (fold_score D h) folds.*2)
    with (map (fun fold => fold_score D h fold.2) folds)
    by (by rewrite <- list_fmap_compose).
  apply mapM_ok_map. intros fold Hin. by apply Hscore.
Qed.

(** The outer loop stores the scores of every age it visits. *)
Lemma for_ages_scored kf (D : DataFrame) (sc : Z -> list float) ages
  (p : gmap Z (list float)) :
  (forall h, cv_perf kf D h = Ok (sc h)) ->
  exists p', for_ages kf D ages p = (p', Ok tt) /\
    forall h, p' !! h = if decide (h ∈ ages) then Some (sc h) else p !! h.
Proof.
  intros Hsc. revert p. induction ages as [|a ages IH]; intros p.
  - exists p. split; [done|]. intros h. case_decide as Hin; [|done].
    by apply elem_of_nil in Hin.
  - simpl. rewrite Hsc. destruct (IH (<[a := sc a]> p)) as (p' & Hrun & Hp').
    exists p'. split; [done|]. intros h. rewrite Hp'.
    destruct (decide (h ∈ ages)) as [Hin|Hnin].
    + rewrite decide_True; [done|by right].
    + destruct (decide (h = a)) as [->|Hne].
      * rewrite lookup_insert_eq, decide_True; [done|left].
      * rewrite lookup_insert_ne by done.
        rewrite decide_False; [done|].
        intros Hin. apply elem_of_cons in Hin as [?|?]; done.
Qed.

Lemma blocks_fold_sizes_nonempty n k :
  2 <= k -> blocks 0 (fold_sizes n k) <> [].
Proof.
  intros Hk Hnil. apply (f_equal length) in Hnil.
  rewrite blocks_length, fold_sizes_length in Hnil by lia. simpl in Hnil. lia.
Qed.

Lemma score_bounds c n :
  c <= n -> 0 < n -> (0 <= Z.of_nat c # Pos.of_nat n <= 1)%Q.
Proof.
  intros Hc Hn. unfold Qle. simpl.
  assert (Z.pos (Pos.of_nat n) = Z.of_nat n) as ->.
  { destruct n; [lia|]. by rewrite <- Pos.of_nat_succ, Zpos_P_of_succ_nat,
      Nat2Z.inj_succ. }
  lia.
Qed.

End Loops.

(** ** Worked examples *)

Section Examples.
Import pandas sklearn.

(** Equal counts of 0 and 1 come out with 1 first. *)
Example value_counts_ties :
  value_counts [0; 1; 1; 0]%Z = [(1%Z, 2); (0%Z, 2)].
Proof. reflexivity. Qed.

Example argmax_majority : argmax (value_counts [1; 1; 0]%Z) = Ok 1%Z.
Proof. reflexivity. Qed.

Example argmax_tie : argmax (value_counts [0; 1; 1; 0]%Z) = Ok 1%Z.
Proof. reflexivity. Qed.

Example guess_tie : guess [0; 1; 1; 0]%Z = Ok 1%Z.
Proof. reflexivity. Qed.

(** A column without survivors has no row labelled 1. *)
Example guess_missing_label : guess [0; 0]%Z = Raise KeyError.
Proof. reflexivity. Qed.

Example predictor_self_lookup :
  table_lookup_predictor query [query] = Ok 0%Z.
Proof. reflexivity. Qed.

(** The cutoff separates the two rows of [tie_table]. *)
Example predictor_2_cutoff :
  table_lookup_predictor_2 query tie_table 6 = Ok 1%Z /\
  table_lookup_predictor_2 (passenger 1 1 "male" 9 0 0) tie_table 6 = Ok 0%Z.
Proof. split; reflexivity. Qed.

Example split_seven_in_three :
  split (mkKFold 3) 7 =
  Ok [([3; 4; 5; 6], [0; 1; 2]); ([0; 1; 2; 5; 6], [3; 4]);
      ([0; 1; 2; 3; 4], [5; 6])].
Proof. reflexivity. Qed.

(** Leave-one-out: as many folds as records. *)
Example make_folds_leave_one_out :
  make_folds 4 4 = Ok [[0]; [1]; [2]; [3]].
Proof. reflexivity. Qed.

Example accuracy_score_half :
  accuracy_score [1; 0; 1; 1]%Z [1; 1; 0; 1]%Z = Ok (Finite (2 # 4)).
Proof. reflexivity. Qed.

Example iloc_out_of_bounds : iloc [10; 20; 30]%Z [0; 3] = Raise IndexError.
Proof. reflexivity. Qed.

(** The scenario of ten records, candidates 10 and 50, five folds of two
    records each. *)
Example evaluate_sample :
  (evaluate sample [10; 50]%Z 5 ∅).1 !! 10%Z
  = Some [Finite (1 # 2); Finite (1 # 2); Finite (2 # 2);
          Finite (2 # 2); Finite (2 # 2)]
  /\ (evaluate sample [10; 50]%Z 5 ∅).2 = Ok tt.
Proof. split; reflexivity. Qed.

End Examples.

(** * The claims *)

Section Claims.
Import pandas sklearn.

(** C3: for a record count [n] and a fold count [k] with [2 <= k <= n],
    [make_folds n k] returns exactly [k] index groups; they are pairwise
    disjoint, together they list [0 .. n-1] once each, and any two group
    sizes differ by at most one. *)
Theorem make_folds_partition (n : nat) (k : Z) :
  (2 <= k <= Z.of_nat n)%Z ->
  exists groups,
    make_folds n k = Ok groups /\
    length groups = Z.to_nat k /\
    concat groups = seq 0 n /\
    NoDup (concat groups) /\
    (forall i, i ∈ concat groups <-> i < n) /\
    (forall i j g1 g2 x,
        i <> j -> groups !! i = Some g1 -> groups !! j = Some g2 ->
        x ∈ g1 -> x ∉ g2) /\
    (forall g1 g2, g1 ∈ groups -> g2 ∈ groups ->
                   length g1 <= length g2 + 1).
Proof.
  intros Hk. exists (blocks 0 (fold_sizes n (Z.to_nat k))).
  assert (Z.to_nat k <> 0) as Hk0 by lia.
  assert (concat (blocks 0 (fold_sizes n (Z.to_nat k))) = seq 0 n) as Hcat.
  { by rewrite blocks_concat, fold_sizes_sum. }
  split; [by apply make_folds_in_range|].
  split; [by rewrite blocks_length, fold_sizes_length|].
  split; [done|].
  split; [rewrite Hcat; apply NoDup_seq|].
  split; [intros i; rewrite Hcat, elem_of_seq; lia|].
  split.
  - intros i j g1 g2 x Hij Hi Hj. eapply concat_NoDup_disjoint; eauto.
    rewrite Hcat. apply NoDup_seq.
  - intros g1 g2 Hg1 Hg2.
    assert (forall g, g ∈ blocks 0 (fold_sizes n (Z.to_nat k)) ->
              length g = n / Z.to_nat k \/ length g = n / Z.to_nat k + 1)
      as Hsize.
    { intros g Hg. apply fold_sizes_elem.
      rewrite <- (blocks_sizes 0 (fold_sizes n (Z.to_nat k))).
      apply list_elem_of_fmap. by exists g. }
    destruct (Hsize g1 Hg1), (Hsize g2 Hg2); lia.
Qed.

Lemma make_folds_partition_witness :
  (2 <= 5 <= Z.of_nat 11)%Z /\
  exists groups,
    make_folds 11 5 = Ok groups /\
    length groups = Z.to_nat 5 /\
    concat groups = seq 0 11 /\
    NoDup (concat groups) /\
    (forall i, i ∈ concat groups <-> i < 11) /\
    (forall i j g1 g2 x,
        i <> j -> groups !! i = Some g1 -> groups !! j = Some g2 ->
        x ∈ g1 -> x ∉ g2) /\
    (forall g1 g2, g1 ∈ groups -> g2 ∈ groups ->
                   length g1 <= length g2 + 1).
Proof. split; [lia | apply (make_folds_partition 11 5); lia]. Defined.

(** C6: when [k < 2] or [k > n_records], [make_folds n_records k] fails;
    the exception is Python's ValueError, raised by the splitter. *)
Theorem make_folds_invalid (n_records : nat) (k : Z) :
  (k < 2 \/ Z.of_nat n_records < k)%Z ->
  make_folds n_records k = Raise ValueError.
Proof.
  intros Hk. unfold make_folds, KFold.
  destruct (Z.leb_spec k 1); [done|]. simpl.
  rewrite split_too_few; [done|]. simpl. lia.
Qed.

Lemma make_folds_invalid_witness :
  ((1 < 2 \/ Z.of_nat 4 < 1)%Z /\ make_folds 4 1 = Raise ValueError) /\
  ((7 < 2 \/ Z.of_nat 4 < 7)%Z /\ make_folds 4 7 = Raise ValueError).
Proof.
  split; (split; [lia|]).
  - apply (make_folds_invalid 4 1); lia.
  - apply (make_folds_invalid 4 7); lia.
Defined.

(** C10: for a fixed age cutoff the similarity mask of
    [table_lookup_predictor_2] is reflexive and symmetric. *)
Theorem similar_2_reflexive_symmetric (age : Z) (x y : Row) :
  similar_2 age x x = true /\ similar_2 age x y = similar_2 age y x.
Proof.
  unfold similar_2. split.
  - rewrite !Z.eqb_refl, String.eqb_refl. simpl. by destruct (float_lt _ _).
  - rewrite (Z.eqb_sym (Pclass y)), (String.eqb_sym (Sex y)),
      (Z.eqb_sym (Siblings_Spouses_Aboard y)),
      (Z.eqb_sym (Parents_Children_Aboard y)).
    by destruct (float_lt (Age x) age), (float_lt (Age y) age).
Qed.

(** C9: on a non-empty reference table the predictor returns a label that
    occurs in the table's [Survived] column.  When some row matches the
    query, it is a label of the matching rows and no label is more frequent
    among them; when none does, no label is more frequent in the whole
    table.  The labels of the matching rows are labels of the table. *)
Theorem predict_label_in_table (x : Row) (table : DataFrame) (age : Z) :
  table <> [] ->
  let matching := map Survived (List.filter (similar_2 age x) table) in
  exists l,
    table_lookup_predictor_2 x table age = Ok l /\
    l ∈ map Survived table /\
    ((matching <> [] /\ l ∈ matching /\
      forall w, count w matching <= count l matching)
     \/ (matching = [] /\
         forall w, count w (map Survived table)
                   <= count l (map Survived table))) /\
    (forall w, w ∈ matching -> w ∈ map Survived table).
Proof.
  intros Hne matching.
  destruct (table_lookup_predictor_2_spec x table age Hne) as (v & Hv & Hm).
  fold matching in Hm. exists v. split; [done|].
  destruct (length matching =? 0) eqn:Hlen.
  - apply length_zero_iff in Hlen. split; [apply Hm|]. split.
    + right. split; [done|]. by apply most_frequent_max.
    + intros w Hw. rewrite Hlen in Hw. by apply elem_of_nil in Hw.
  - assert (matching <> []) as Hsome.
    { intros Hnil. apply length_zero_iff in Hnil. congruence. }
    split; [eapply filter_labels_subset; apply Hm|]. split.
    + left. split; [done|]. split; [apply Hm|by apply most_frequent_max].
    + intros w Hw. by eapply filter_labels_subset.
Qed.

Lemma predict_label_in_table_witness :
  tie_table <> [] /\
  let matching := map Survived (List.filter (similar_2 10 query) tie_table) in
  exists l,
    table_lookup_predictor_2 query tie_table 10 = Ok l /\
    l ∈ map Survived tie_table /\
    ((matching <> [] /\ l ∈ matching /\
      forall w, count w matching <= count l matching)
     \/ (matching = [] /\
         forall w, count w (map Survived tie_table)
                   <= count l (map Survived tie_table))) /\
    (forall w, w ∈ matching -> w ∈ map Survived tie_table).
Proof.
  split; [discriminate | apply (predict_label_in_table query tie_table 10)].
  discriminate.
Defined.

(** C7: when no row of a non-empty table matches the query, the predictor
    returns the default label, the result of [value_counts().argmax()] on
    the whole [Survived] column, and no label is more frequent in the
    table; on an empty table the default label cannot be computed and the
    call raises. *)
Theorem predict_default_when_no_match (x : Row) (table : DataFrame)
  (age : Z) :
  table <> [] ->
  (forall t, t ∈ table -> similar_2 age x t = false) ->
  exists d,
    table_lookup_predictor_2 x table age = Ok d /\
    argmax (value_counts (map Survived table)) = Ok d /\
    d ∈ map Survived table /\
    (forall w, count w (map Survived table) <= count d (map Survived table))
    /\ table_lookup_predictor_2 x [] age = Raise ValueError.
Proof.
  intros Hne Hnone.
  destruct (argmax_value_counts (map Survived table)) as (d & Hd & Hmd).
  { by destruct table. }
  exists d. unfold table_lookup_predictor_2. rewrite Hd. simpl.
  rewrite filter_none by done. simpl.
  repeat split; try done; [apply Hmd|by apply most_frequent_max].
Qed.

Lemma predict_default_when_no_match_witness :
  other_table <> [] /\
  (forall t, t ∈ other_table -> similar_2 10 query t = false) /\
  exists d,
    table_lookup_predictor_2 query other_table 10 = Ok d /\
    argmax (value_counts (map Survived other_table)) = Ok d /\
    d ∈ map Survived other_table /\
    (forall w, count w (map Survived other_table)
               <= count d (map Survived other_table))
    /\ table_lookup_predictor_2 query [] 10 = Raise ValueError.
Proof.
  assert (forall t, t ∈ other_table -> similar_2 10 query t = false) as Hno.
  { intros t Ht. unfold other_table in Ht.
    repeat (apply elem_of_cons in Ht as [->|Ht]; [reflexivity|]).
    by apply elem_of_nil in Ht. }
  split; [discriminate|]. split; [exact Hno|].
  apply (predict_default_when_no_match query other_table 10);
    [discriminate | exact Hno].
Defined.

(** C2, as the code has it: on a non-empty table whose labels are zeros
    and ones the predictor returns a most frequent label of the similar rows
    (of the whole table when there are none), and when 0 and 1 are equally
    frequent there it returns 1, not the lowest label. *)
Theorem predict_most_frequent_tie_one (x : Row) (table : DataFrame)
  (age : Z) :
  table <> [] ->
  Forall (fun t => Survived t = 0%Z \/ Survived t = 1%Z) table ->
  let similar_tab := map Survived (List.filter (similar_2 age x) table) in
  let col := if (length similar_tab =? 0) then map Survived table
             else similar_tab in
  exists v,
    table_lookup_predictor_2 x table age = Ok v /\
    v ∈ col /\
    (forall w, count w col <= count v col) /\
    (count 0%Z col = count 1%Z col -> v = 1%Z).
Proof.
  intros Hne Hbin similar_tab col.
  destruct (table_lookup_predictor_2_spec x table age Hne) as (v & Hv & Hm).
  fold similar_tab in Hm. fold col in Hm.
  exists v. split; [done|]. split; [apply Hm|].
  split; [by apply most_frequent_max|].
  intros Htie. destruct Hm as [Hin Hm].
  assert (v ∈ map Survived table) as Hlab.
  { subst col. destruct (length similar_tab =? 0); [done|].
    by eapply filter_labels_subset. }
  apply list_elem_of_fmap in Hlab as (t & -> & Ht).
  eapply Forall_forall in Hbin; [|exact Ht].
  destruct Hbin as [H0|H1]; [|done]. exfalso.
  rewrite H0 in Hin, Hm. apply count_pos in Hin.
  assert (1%Z ∈ col) as Hone by (apply count_pos; lia).
  specialize (Hm 1%Z Hone). lia.
Qed.

Lemma predict_most_frequent_tie_one_witness :
  tie_table <> [] /\
  Forall (fun t => Survived t = 0%Z \/ Survived t = 1%Z) tie_table /\
  let similar_tab := map Survived (List.filter (similar_2 10 query) tie_table) in
  let col := if (length similar_tab =? 0) then map Survived tie_table
             else similar_tab in
  exists v,
    table_lookup_predictor_2 query tie_table 10 = Ok v /\
    v ∈ col /\
    (forall w, count w col <= count v col) /\
    (count 0%Z col = count 1%Z col -> v = 1%Z).
Proof.
  assert (Forall (fun t => Survived t = 0%Z \/ Survived t = 1%Z) tie_table)
    as Hbin.
  { unfold tie_table. repeat (apply Forall_cons; split; [simpl; auto|]).
    apply Forall_nil_2. }
  split; [discriminate|]. split; [exact Hbin|].
  apply (predict_most_frequent_tie_one query tie_table 10);
    [discriminate | exact Hbin].
Defined.

(** C2 fails as stated: both rows of [tie_table] match the query, their
    labels are 1 then 0, and the predictor answers 1. *)
Lemma predict_tie_one_zero :
  map Survived (List.filter (similar_2 10 query) tie_table) = [1; 0]%Z /\
  table_lookup_predictor_2 query tie_table 10 = Ok 1%Z /\
  table_lookup_predictor_2 query tie_table 10 <> Ok 0%Z.
Proof. repeat split; [reflexivity..|discriminate]. Qed.

(** C1: for a fold count in range, the evaluation fails nowhere and leaves
    in [performance] exactly one entry per candidate; the entry is a
    sequence of [k] scores, and the score at position [f] is the number of
    held-out records of fold [f] that the predictor, given the records
    outside fold [f] and the candidate, labels correctly, over the number of
    held-out records; it lies between 0 and 1. *)
Theorem evaluate_scores (D : DataFrame) (ages : list Z) (k : Z)
  (performance0 : gmap Z (list float)) :
  (2 <= k <= Z.of_nat (length D))%Z ->
  exists (performance : gmap Z (list float)) (groups : list (list nat)),
    evaluate D ages k performance0 = (performance, Ok tt) /\
    make_folds (length D) k = Ok groups /\
    length groups = Z.to_nat k /\
    dom performance = list_to_set ages /\
    forall h, h ∈ ages ->
      exists scores,
        performance !! h = Some scores /\
        length scores = Z.to_nat k /\
        forall f g, groups !! f = Some g ->
          0 < length (held_out D g) /\
          scores !! f
          = Some (Finite
                    (Z.of_nat (correct (training D g) h (held_out D g))
                     # Pos.of_nat (length (held_out D g)))) /\
          (0 <= Z.of_nat (correct (training D g) h (held_out D g))
                # Pos.of_nat (length (held_out D g)) <= 1)%Q.
Proof.
  intros Hk.
  assert (2 <= Z.to_nat k <= length D) as Hk' by lia.
  destruct (split_scored D (Z.to_nat k) Hk') as (folds & Hsplit & Hg & Hsc).
  destruct (for_ages_scored (mkKFold (Z.to_nat k)) D
              (fun h => map (fold_score D h) folds.*2) ages ∅)
    as (performance & Hrun & Hlook).
  { intros h. by apply cv_perf_scored. }
  exists performance, (blocks 0 (fold_sizes (length D) (Z.to_nat k))).
  split.
  { unfold evaluate, KFold. by destruct (Z.leb_spec k 1); [lia|]. }
  split; [by apply make_folds_in_range|].
  split; [rewrite blocks_length, fold_sizes_length; lia|].
  split.
  { apply set_eq. intros h.
    rewrite elem_of_dom, elem_of_list_to_set, Hlook, lookup_empty.
    case_decide; split; intros Hx; done || by destruct Hx. }
  intros h Hh. eexists. split; [by rewrite Hlook, decide_True|].
  rewrite Hg. split.
  { rewrite length_map, blocks_length, fold_sizes_length; lia. }
  intros f g Hf.
  assert (0 < length (held_out D g)) as Hpos.
  { apply list_elem_of_lookup_2, blocks_elem in Hf
      as (a & s & -> & Hs & _ & Hle).
    rewrite fold_sizes_sum in Hle by lia.
    apply fold_sizes_bounds in Hs; [|done].
    rewrite held_out_length; lia. }
  split; [done|]. split.
  - by rewrite list_lookup_fmap, Hf.
  - apply score_bounds; [apply correct_le|done].
Qed.

Lemma evaluate_scores_witness :
  (2 <= 5 <= Z.of_nat (length sample))%Z /\
  exists (performance : gmap Z (list float)) (groups : list (list nat)),
    evaluate sample [10; 50]%Z 5 ∅ = (performance, Ok tt) /\
    make_folds (length sample) 5 = Ok groups /\
    length groups = Z.to_nat 5 /\
    dom performance = list_to_set [10; 50]%Z /\
    forall h, h ∈ [10; 50]%Z ->
      exists scores,
        performance !! h = Some scores /\
        length scores = Z.to_nat 5 /\
        forall f g, groups !! f = Some g ->
          0 < length (held_out sample g) /\
          scores !! f
          = Some (Finite
                    (Z.of_nat (correct (training sample g) h
                                 (held_out sample g))
                     # Pos.of_nat (length (held_out sample g)))) /\
          (0 <= Z.of_nat (correct (training sample g) h (held_out sample g))
                # Pos.of_nat (length (held_out sample g)) <= 1)%Q.
Proof.
  split; [simpl; lia|].
  apply (evaluate_scores sample [10; 50]%Z 5 ∅). simpl; lia.
Defined.

(** C5, as the code has it: with fewer than [k] records and at least one
    candidate the evaluation fails with ValueError, raised by the splitter
    before any score is computed; [performance] then holds no entry of this
    run (it is the fresh empty dictionary, or was never touched). *)
Theorem evaluate_too_few_records (D : DataFrame) (ages : list Z) (k : Z)
  (performance0 : gmap Z (list float)) :
  (Z.of_nat (length D) < k)%Z ->
  ages <> [] ->
  exists performance,
    evaluate D ages k performance0 = (performance, Raise ValueError) /\
    (performance = ∅ \/ performance = performance0).
Proof.
  intros Hlt Hne. unfold evaluate, KFold.
  destruct (Z.leb_spec k 1).
  - exists performance0. by split; [|right].
  - exists ∅. split; [|by left].
    destruct ages as [|a ages]; [done|]. simpl.
    unfold cv_perf. rewrite split_too_few; [done|]. simpl. lia.
Qed.

Lemma evaluate_too_few_records_witness :
  (Z.of_nat (length tie_table) < 5)%Z /\
  [10; 50]%Z <> [] /\
  exists performance,
    evaluate tie_table [10; 50]%Z 5 ∅ = (performance, Raise ValueError) /\
    (performance = ∅ \/ performance = ∅).
Proof.
  split; [simpl; lia|]. split; [discriminate|].
  apply (evaluate_too_few_records tie_table [10; 50]%Z 5 ∅);
    [simpl; lia | discriminate].
Defined.

(** C5 fails as stated: without candidates the splitter is never asked for
    a fold, and the evaluation of an empty dataset with [k = 2] ends
    normally. *)
Lemma evaluate_no_candidates_no_failure :
  (Z.of_nat (length (@nil Row)) < 2)%Z /\
  evaluate [] [] 2 ∅ = (∅, Ok tt).
Proof. split; [simpl; lia | reflexivity]. Qed.

End Claims.

(** * Further properties of the notebook *)

(** ** The similarity masks *)

Section Masks.

Lemma similar_true (x t : Row) :
  similar x t = true <->
  Pclass t = Pclass x /\ Sex t = Sex x /\
  Siblings_Spouses_Aboard t = Siblings_Spouses_Aboard x /\
  Parents_Children_Aboard t = Parents_Children_Aboard x.
Proof.
  unfold similar. rewrite !andb_true_iff, !Z.eqb_eq, String.eqb_eq. tauto.
Qed.

Lemma similar_2_true (age : Z) (x t : Row) :
  similar_2 age x t = true <->
  similar x t = true /\ float_lt (Age t) age = float_lt (Age x) age.
Proof.
  unfold similar_2, similar. rewrite !andb_true_iff, Bool.eqb_true_iff. tauto.
Qed.

Lemma similar_refl (x : Row) : similar x x = true.
Proof. by apply similar_true. Qed.

Lemma filter_ext_elem {A : Type} (f g : A -> bool) (l : list A) :
  (forall a, a ∈ l -> f a = g a) -> List.filter f l = List.filter g l.
Proof.
  intros Hfg. apply filter_ext_in. intros a Ha. by apply Hfg, list_elem_of_In.
Qed.

Lemma filter_elem {A : Type} (f : A -> bool) (l : list A) a :
  a ∈ List.filter f l <-> a ∈ l /\ f a = true.
Proof. rewrite !list_elem_of_In. apply filter_In. Qed.

(** The predictors see the query only through its mask. *)
Lemma table_lookup_predictor_mask (x x' : Row) (table : DataFrame) :
  (forall t, t ∈ table -> similar x t = similar x' t) ->
  table_lookup_predictor x table = table_lookup_predictor x' table.
Proof.
  intros Hm. unfold table_lookup_predictor.
  by rewrite (filter_ext_elem _ _ _ Hm).
Qed.

Lemma table_lookup_predictor_2_mask (x x' : Row) (table : DataFrame)
  (age age' : Z) :
  (forall t, t ∈ table -> similar_2 age x t = similar_2 age' x' t) ->
  table_lookup_predictor_2 x table age
  = table_lookup_predictor_2 x' table age'.
Proof.
  intros Hm. unfold table_lookup_predictor_2.
  by rewrite (filter_ext_elem _ _ _ Hm).
Qed.

End Masks.

(** ** Counting is blind to the order of the rows

    The slots are kept in label order, so that the counted Series is the
    same for every order of the rows.  This is a fact about pandas on
    columns of zeros and ones, where label order is bucket order. *)

Section Order.
Import pandas.

Lemma sorted_series_eq (s1 s2 : Series) :
  StronglySorted Z.lt s1.*1 -> StronglySorted Z.lt s2.*1 ->
  (forall k, k ∈ s1.*1 <-> k ∈ s2.*1) ->
  (forall k, slot k s1 = slot k s2) ->
  s1 = s2.
Proof.
  revert s2. induction s1 as [|[k1 c1] s1 IH]; intros s2 Hs1 Hs2 Hk Hc.
  - destruct s2 as [|[k2 c2] s2]; [done|].
    exfalso. apply (elem_of_nil k2), Hk. left.
  - destruct s2 as [|[k2 c2] s2].
    { exfalso. apply (elem_of_nil k1), Hk. left. }
    simpl in *.
    apply StronglySorted_inv in Hs1 as [Hs1 Hall1].
    apply StronglySorted_inv in Hs2 as [Hs2 Hall2].
    assert (k1 = k2) as ->.
    { assert (k1 ∈ k2 :: s2.*1) as H12 by (apply Hk; left).
      assert (k2 ∈ k1 :: s1.*1) as H21 by (apply Hk; left).
      apply elem_of_cons in H12 as [?|H12]; [done|].
      apply elem_of_cons in H21 as [?|H21]; [done|].
      eapply Forall_forall in Hall1; [|exact H21].
      eapply Forall_forall in Hall2; [|exact H12]. lia. }
    assert (c1 = c2) as ->.
    { specialize (Hc k2). by rewrite Z.eqb_refl in Hc. }
    f_equal. apply IH; [done..| |].
    + intros k. specialize (Hk k). rewrite !elem_of_cons in Hk.
      pose proof (sorted_head_absent k2 _ Hall1).
      pose proof (sorted_head_absent k2 _ Hall2).
      split; intros Hin; destruct (decide (k = k2)) as [->|]; try done; tauto.
    + intros k. specialize (Hc k).
      destruct (Z.eqb_spec k2 k) as [Heq|]; [|done].
      rewrite !slot_absent; [done|rewrite <- Heq; by apply sorted_head_absent..].
Qed.

Lemma count_perm (l l' : list Z) k : l ≡ₚ l' -> count k l = count k l'.
Proof.
  intros Hp. unfold count. by apply (Permutation_count_occ Z.eq_dec).
Qed.

Lemma value_count_int64_slot (values : list Z) k :
  slot k (value_count_int64 values) = count k values.
Proof.
  by destruct (counting_invariant values [] []) as (_ & _ & Hc);
    [constructor|done|done|].
Qed.

Lemma value_count_int64_keys (values : list Z) k :
  k ∈ (value_count_int64 values).*1 <-> k ∈ values.
Proof.
  by destruct (counting_invariant values [] []) as (_ & Hk & _);
    [constructor|done|done|].
Qed.

Lemma value_counts_order (l l' : list Z) :
  l ≡ₚ l' -> value_counts l = value_counts l'.
Proof.
  intros Hp. unfold value_counts. f_equal.
  apply sorted_series_eq; try apply value_count_int64_sorted.
  - intros k. rewrite !value_count_int64_keys. by rewrite Hp.
  - intros k. rewrite !value_count_int64_slot. by apply count_perm.
Qed.

Lemma filter_perm {A : Type} (f : A -> bool) (l l' : list A) :
  l ≡ₚ l' -> List.filter f l ≡ₚ List.filter f l'.
Proof.
  induction 1 as [|a l l' _ IH|a b l|l1 l2 l3 _ IH1 _ IH2]; simpl.
  - done.
  - destruct (f a); by rewrite IH.
  - destruct (f a), (f b); try done. apply Permutation_swap.
  - by rewrite IH1.
Qed.

End Order.

(** ** The table-lookup predictor without the age cutoff *)

Section Lookup.
Import pandas sklearn.

(** X1: on a non-empty table [table_lookup_predictor] returns a most
    frequent label of the rows that match the query on class, sex and the
    two family counts, or of the whole table when no row matches; the label
    occurs in the table. *)
Theorem tlu_most_frequent_label (x : Row) (table : DataFrame) :
  table <> [] ->
  let similar_tab := map Survived (List.filter (similar x) table) in
  let col := if (length similar_tab =? 0) then map Survived table
             else similar_tab in
  exists v,
    table_lookup_predictor x table = Ok v /\
    v ∈ col /\
    (forall w, count w col <= count v col) /\
    v ∈ map Survived table.
Proof.
  intros Hne similar_tab col.
  destruct (table_lookup_predictor_spec x table Hne) as (v & Hv & Hm).
  fold similar_tab in Hm. fold col in Hm.
  exists v. split; [done|]. split; [apply Hm|].
  split; [by apply most_frequent_max|].
  destruct Hm as [Hin _]. subst col.
  destruct (length similar_tab =? 0); [done|].
  by eapply filter_labels_subset.
Qed.

Lemma tlu_most_frequent_label_witness :
  sample <> [] /\
  let similar_tab := map Survived (List.filter (similar query) sample) in
  let col := if (length similar_tab =? 0) then map Survived sample
             else similar_tab in
  exists v,
    table_lookup_predictor query sample = Ok v /\
    v ∈ col /\
    (forall w, count w col <= count v col) /\
    v ∈ map Survived sample.
Proof.
  split; [discriminate|].
  apply (tlu_most_frequent_label query sample). discriminate.
Defined.

(** X2: when no row of a non-empty table matches the query,
    [table_lookup_predictor] returns the default label, that is
    [value_counts().argmax()] of the whole [Survived] column, which no label
    outnumbers. *)
Theorem tlu_default_when_no_match (x : Row) (table : DataFrame) :
  table <> [] ->
  (forall t, t ∈ table -> similar x t = false) ->
  exists d,
    table_lookup_predictor x table = Ok d /\
    argmax (value_counts (map Survived table)) = Ok d /\
    d ∈ map Survived table /\
    forall w, count w (map Survived table) <= count d (map Survived table).
Proof.
  intros Hne Hnone.
  destruct (argmax_value_counts (map Survived table)) as (d & Hd & Hin & Hm).
  { by destruct table. }
  exists d. unfold table_lookup_predictor. rewrite Hd. simpl.
  rewrite (filter_none (similar x) table) by done. simpl.
  split; [done|]. split; [done|]. split; [done|].
  intros w. destruct (decide (w ∈ map Survived table)) as [Hw|Hw].
  - specialize (Hm w Hw). lia.
  - rewrite count_pos in Hw. lia.
Qed.

Lemma tlu_default_when_no_match_witness :
  lookup_table <> [] /\
  (forall t, t ∈ lookup_table -> similar query t = false) /\
  exists d,
    table_lookup_predictor query lookup_table = Ok d /\
    argmax (value_counts (map Survived lookup_table)) = Ok d /\
    d ∈ map Survived lookup_table /\
    forall w, count w (map Survived lookup_table)
              <= count d (map Survived lookup_table).
Proof.
  assert (forall t, t ∈ lookup_table -> similar query t = false) as Hno.
  { intros t Ht. unfold lookup_table in Ht.
    repeat (apply elem_of_cons in Ht as [->|Ht]; [reflexivity|]).
    by apply elem_of_nil in Ht. }
  split; [discriminate|]. split; [exact Hno|].
  apply (tlu_default_when_no_match query lookup_table);
    [discriminate | exact Hno].
Defined.

(** With a matching row in the table, the answer is the label of some
    matching row. *)
Lemma table_lookup_predictor_similar (x : Row) (table : DataFrame) (t0 : Row) :
  t0 ∈ table -> similar x t0 = true ->
  exists v t,
    table_lookup_predictor x table = Ok v /\
    t ∈ table /\ similar x t = true /\ Survived t = v.
Proof.
  intros Ht0 Hs0.
  assert (table <> []) as Hne by (intros ->; by apply elem_of_nil in Ht0).
  destruct (table_lookup_predictor_spec x table Hne) as (v & Hv & Hin & _).
  assert (t0 ∈ List.filter (similar x) table) as Hf by (by apply filter_elem).
  destruct (List.filter (similar x) table) as [|t1 ts] eqn:Hfilter.
  { by apply elem_of_nil in Hf. }
  rewrite <- Hfilter in Hin. simpl in Hin.
  replace (length (map Survived (List.filter (similar x) table)) =? 0)
    with false in Hin by (by rewrite Hfilter).
  apply list_elem_of_fmap in Hin as (t & -> & Ht).
  apply filter_elem in Ht as [Ht Hs]. by exists (Survived t), t.
Qed.

(** X3: when some row of the table matches the query and all matching rows
    carry the same label, [table_lookup_predictor] returns that label; in
    particular a row looked up in its own table gets its own label back
    unless a look-alike contradicts it. *)
Theorem tlu_unanimous (x : Row) (table : DataFrame) (l : Z) :
  (exists t, t ∈ table /\ similar x t = true) ->
  (forall t, t ∈ table -> similar x t = true -> Survived t = l) ->
  table_lookup_predictor x table = Ok l.
Proof.
  intros (t0 & Ht0 & Hs0) Hall.
  destruct (table_lookup_predictor_similar x table t0 Ht0 Hs0)
    as (v & t & Hv & Ht & Hs & <-).
  rewrite Hv. f_equal. by apply Hall.
Qed.

Lemma tlu_unanimous_witness :
  (exists t, t ∈ lookup_table
             /\ similar (passenger 0 1 "female" 3 0 0) t = true) /\
  (forall t, t ∈ lookup_table ->
             similar (passenger 0 1 "female" 3 0 0) t = true ->
             Survived t = 1%Z) /\
  table_lookup_predictor (passenger 0 1 "female" 3 0 0) lookup_table = Ok 1%Z.
Proof.
  assert (exists t, t ∈ lookup_table
                    /\ similar (passenger 0 1 "female" 3 0 0) t = true) as H1.
  { exists (passenger 1 1 "female" 30 0 0). split; [left|reflexivity]. }
  assert (forall t, t ∈ lookup_table ->
                    similar (passenger 0 1 "female" 3 0 0) t = true ->
                    Survived t = 1%Z) as H2.
  { intros t Ht. unfold lookup_table in Ht.
    repeat (apply elem_of_cons in Ht as [->|Ht];
            [intros Hs; first [reflexivity | discriminate Hs]|]).
    by apply elem_of_nil in Ht. }
  split; [exact H1|]. split; [exact H2|].
  apply (tlu_unanimous _ lookup_table 1 H1 H2).
Defined.

(** X4: the same for [table_lookup_predictor_2]: when some row matches the
    query, cutoff side included, and the matching rows agree on the label,
    that label is returned. *)
Theorem tlu_2_unanimous (x : Row) (table : DataFrame) (age : Z) (l : Z) :
  (exists t, t ∈ table /\ similar_2 age x t = true) ->
  (forall t, t ∈ table -> similar_2 age x t = true -> Survived t = l) ->
  table_lookup_predictor_2 x table age = Ok l.
Proof.
  intros (t0 & Ht0 & Hs0) Hall.
  assert (table <> []) as Hne by (intros ->; by apply elem_of_nil in Ht0).
  destruct (table_lookup_predictor_2_spec x table age Hne)
    as (v & Hv & Hin & _).
  rewrite Hv. f_equal.
  assert (t0 ∈ List.filter (similar_2 age x) table) as Hf
    by (by apply filter_elem).
  destruct (List.filter (similar_2 age x) table) as [|t1 ts] eqn:Hfilter.
  { by apply elem_of_nil in Hf. }
  rewrite <- Hfilter in Hin. simpl in Hin.
  replace (length (map Survived (List.filter (similar_2 age x) table)) =? 0)
    with false in Hin by (by rewrite Hfilter).
  apply list_elem_of_fmap in Hin as (t & -> & Ht).
  apply filter_elem in Ht as [Ht Hs]. by apply Hall.
Qed.

Lemma tlu_2_unanimous_witness :
  (exists t, t ∈ tie_table /\ similar_2 6 query t = true) /\
  (forall t, t ∈ tie_table -> similar_2 6 query t = true ->
             Survived t = 1%Z) /\
  table_lookup_predictor_2 query tie_table 6 = Ok 1%Z.
Proof.
  assert (exists t, t ∈ tie_table /\ similar_2 6 query t = true) as H1.
  { exists (passenger 1 1 "male" 5 0 0). split; [left|reflexivity]. }
  assert (forall t, t ∈ tie_table -> similar_2 6 query t = true ->
                    Survived t = 1%Z) as H2.
  { intros t Ht. unfold tie_table in Ht.
    repeat (apply elem_of_cons in Ht as [->|Ht];
            [intros Hs; first [reflexivity | discriminate Hs]|]).
    by apply elem_of_nil in Ht. }
  split; [exact H1|]. split; [exact H2|].
  apply (tlu_2_unanimous query tie_table 6 1 H1 H2).
Defined.

(** X5: when the cutoff puts every row of the table on the same side as
    the query, [table_lookup_predictor_2] answers as
    [table_lookup_predictor] does. *)
Theorem tlu_2_without_cut (x : Row) (table : DataFrame) (age : Z) :
  (forall t, t ∈ table -> float_lt (Age t) age = float_lt (Age x) age) ->
  table_lookup_predictor_2 x table age = table_lookup_predictor x table.
Proof.
  intros Hside. unfold table_lookup_predictor_2, table_lookup_predictor.
  rewrite (filter_ext_elem (similar_2 age x) (similar x)); [done|].
  intros t Ht. unfold similar_2. fold (similar x t).
  rewrite (Hside t Ht). destruct (float_lt (Age x) age); simpl;
    by rewrite andb_true_r.
Qed.

Lemma tlu_2_without_cut_witness :
  (forall t, t ∈ tie_table ->
             float_lt (Age t) 10 = float_lt (Age query) 10) /\
  table_lookup_predictor_2 query tie_table 10
  = table_lookup_predictor query tie_table.
Proof.
  assert (forall t, t ∈ tie_table ->
                    float_lt (Age t) 10 = float_lt (Age query) 10) as Hs.
  { intros t Ht. unfold tie_table in Ht.
    repeat (apply elem_of_cons in Ht as [->|Ht]; [reflexivity|]).
    by apply elem_of_nil in Ht. }
  split; [exact Hs | apply (tlu_2_without_cut query tie_table 10 Hs)].
Defined.

(** X6: the predictors read the query's class, sex, family counts and, for
    the second one, the side of its age; two queries that agree on these
    get the same answer, whatever their own label, name or exact age. *)
Theorem tlu_ignores_query_label (x x' : Row) (table : DataFrame) (age : Z) :
  Pclass x = Pclass x' ->
  Sex x = Sex x' ->
  Siblings_Spouses_Aboard x = Siblings_Spouses_Aboard x' ->
  Parents_Children_Aboard x = Parents_Children_Aboard x' ->
  float_lt (Age x) age = float_lt (Age x') age ->
  table_lookup_predictor x table = table_lookup_predictor x' table /\
  table_lookup_predictor_2 x table age
  = table_lookup_predictor_2 x' table age.
Proof.
  intros Hp Hs Hsib Hpar Hage. split.
  - apply table_lookup_predictor_mask. intros t _. unfold similar.
    by rewrite Hp, Hs, Hsib, Hpar.
  - apply table_lookup_predictor_2_mask. intros t _. unfold similar_2.
    by rewrite Hp, Hs, Hsib, Hpar, Hage.
Qed.

Lemma tlu_ignores_query_label_witness :
  Pclass query = Pclass query_survivor /\
  Sex query = Sex query_survivor /\
  Siblings_Spouses_Aboard query = Siblings_Spouses_Aboard query_survivor /\
  Parents_Children_Aboard query = Parents_Children_Aboard query_survivor /\
  float_lt (Age query) 10 = float_lt (Age query_survivor) 10 /\
  table_lookup_predictor query sample
  = table_lookup_predictor query_survivor sample /\
  table_lookup_predictor_2 query sample 10
  = table_lookup_predictor_2 query_survivor sample 10.
Proof.
  repeat (split; [reflexivity|]).
  apply (tlu_ignores_query_label query query_survivor sample 10);
    reflexivity.
Defined.

(** X7: on a reference table whose labels are zeros and ones, the answer of
    either predictor does not depend on the order of the rows. *)
Theorem tlu_row_order (x : Row) (table table' : DataFrame) (age : Z) :
  Forall (fun t => Survived t = 0%Z \/ Survived t = 1%Z) table ->
  table ≡ₚ table' ->
  table_lookup_predictor x table = table_lookup_predictor x table' /\
  table_lookup_predictor_2 x table age
  = table_lookup_predictor_2 x table' age.
Proof.
  intros _ Hp.
  assert (forall f : Row -> bool,
            value_counts (map Survived (List.filter f table))
            = value_counts (map Survived (List.filter f table'))
            /\ length (map Survived (List.filter f table))
               = length (map Survived (List.filter f table'))) as Hf.
  { intros f. pose proof (filter_perm f _ _ Hp) as Hfp. split.
    - apply value_counts_order. by apply Permutation_map.
    - rewrite !length_map. by apply Permutation_length. }
  assert (value_counts (map Survived table)
          = value_counts (map Survived table')) as Hall.
  { apply value_counts_order. by apply Permutation_map. }
  unfold table_lookup_predictor, table_lookup_predictor_2.
  rewrite Hall.
  destruct (Hf (similar x)) as [-> ->].
  by destruct (Hf (similar_2 age x)) as [-> ->].
Qed.

Lemma tlu_row_order_witness :
  Forall (fun t => Survived t = 0%Z \/ Survived t = 1%Z) tie_table /\
  tie_table ≡ₚ tie_table_swapped /\
  table_lookup_predictor query tie_table
  = table_lookup_predictor query tie_table_swapped /\
  table_lookup_predictor_2 query tie_table 10
  = table_lookup_predictor_2 query tie_table_swapped 10.
Proof.
  assert (Forall (fun t => Survived t = 0%Z \/ Survived t = 1%Z) tie_table)
    as Hbin.
  { unfold tie_table. repeat (apply Forall_cons; split; [simpl; auto|]).
    apply Forall_nil_2. }
  assert (tie_table ≡ₚ tie_table_swapped) as Hp by apply Permutation_swap.
  split; [exact Hbin|].
  split; [exact Hp | apply (tlu_row_order query _ _ 10 Hbin Hp)].
Defined.

(** X8: the mask of [table_lookup_predictor] is an equivalence relation on
    rows, and the mask of [table_lookup_predictor_2] is transitive and only
    selects rows that the first mask selects. *)
Theorem similar_equivalence (age : Z) (x y z : Row) :
  similar x x = true /\
  similar x y = similar y x /\
  implb (similar x y && similar y z) (similar x z) = true /\
  implb (similar_2 age x y && similar_2 age y z) (similar_2 age x z) = true /\
  implb (similar_2 age x y) (similar x y) = true.
Proof.
  split; [apply similar_refl|]. split.
  { unfold similar.
    by rewrite (Z.eqb_sym (Pclass y)), (String.eqb_sym (Sex y)),
      (Z.eqb_sym (Siblings_Spouses_Aboard y)),
      (Z.eqb_sym (Parents_Children_Aboard y)). }
  assert (forall a b c, similar a b = true -> similar b c = true ->
                        similar a c = true) as Htrans.
  { intros a b c. rewrite !similar_true.
    intros (-> & -> & -> & ->) (-> & -> & -> & ->). done. }
  split; [|split].
  - destruct (similar x y) eqn:Hxy, (similar y z) eqn:Hyz; simpl; try done.
    by rewrite (Htrans x y z).
  - destruct (similar_2 age x y) eqn:Hxy, (similar_2 age y z) eqn:Hyz;
      simpl; try done.
    apply similar_2_true in Hxy as [Hxy Hax], Hyz as [Hyz Hay].
    assert (similar_2 age x z = true) as ->; [|done].
    apply similar_2_true. split; [by eapply Htrans|congruence].
  - destruct (similar_2 age x y) eqn:Hxy; simpl; [|done].
    by apply similar_2_true in Hxy as [-> _].
Qed.

End Lookup.

(** ** The majority cell *)

Section Majority.
Import pandas sklearn.

Lemma getitem_value_counts (col : list Z) key :
  getitem (value_counts col) key
  = if decide (key ∈ col) then Ok (count key col) else Raise KeyError.
Proof.
  assert (forall (s : Series),
            (exists c, getitem s key = Ok c /\ (key, c) ∈ s) \/
            (getitem s key = Raise KeyError /\ key ∉ s.*1)) as Hget.
  { induction s as [|[k c] s IH]; simpl.
    - right. split; [done|]. apply not_elem_of_nil.
    - destruct (Z.eqb_spec k key) as [->|Hne].
      + left. exists c. split; [done|left].
      + destruct IH as [(c' & Hc' & Hin)|[Hc' Hnin]].
        * left. exists c'. split; [done|by right].
        * right. split; [done|]. by apply not_elem_of_cons. }
  destruct (Hget (value_counts col)) as [(c & Hc & Hin)|[Hc Hnin]].
  - apply value_counts_elem in Hin as [Hin ->]. by rewrite Hc, decide_True.
  - rewrite Hc, decide_False; [done|]. intros Hin. apply Hnin.
    apply list_elem_of_fmap. exists (key, count key col).
    split; [done|]. by apply value_counts_elem.
Qed.

Lemma error_count_cons v (survived : list Z) g :
  error_count (v :: survived) g = (Z.abs (v - g) + error_count survived g)%Z.
Proof. reflexivity. Qed.

Lemma count_cons k v (col : list Z) :
  count k (v :: col) = (if decide (v = k) then 1 else 0) + count k col.
Proof.
  unfold count. simpl. destruct (Z.eq_dec v k); by case_decide.
Qed.

Lemma error_count_binary (survived : list Z) :
  Forall (fun v => v = 0%Z \/ v = 1%Z) survived ->
  error_count survived 0 = Z.of_nat (count 1 survived) /\
  error_count survived 1 = Z.of_nat (count 0 survived) /\
  count 0 survived + count 1 survived = length survived.
Proof.
  induction 1 as [|v survived [->| ->] _ (IH0 & IH1 & IHn)].
  - done.
  - rewrite !error_count_cons, !count_cons, IH0, IH1.
    repeat case_decide; try done; simpl; lia.
  - rewrite !error_count_cons, !count_cons, IH0, IH1.
    repeat case_decide; try done; simpl; lia.
Qed.

(** X9: the majority cell fails with KeyError exactly when label 0 or
    label 1 is missing from the column; otherwise its guess is 0 when 0 is
    strictly more frequent than 1, and 1 in every other case. *)
Theorem guess_spec (survived : list Z) :
  guess survived
  = if decide (0%Z ∈ survived /\ 1%Z ∈ survived)
    then Ok (if count 1 survived <? count 0 survived then 0%Z else 1%Z)
    else Raise KeyError.
Proof.
  unfold guess. rewrite !getitem_value_counts.
  destruct (decide (0%Z ∈ survived)), (decide (1%Z ∈ survived)); simpl;
    (rewrite decide_True by done) || (rewrite decide_False by tauto); done.
Qed.

(** X10: on a column of zeros and ones the guess of the majority cell is
    the label that [value_counts().argmax()] returns, the default label of
    the predictors. *)
Theorem guess_agrees_with_argmax (survived : list Z) (g : Z) :
  Forall (fun v => v = 0%Z \/ v = 1%Z) survived ->
  guess survived = Ok g ->
  argmax (value_counts survived) = Ok g.
Proof.
  intros Hbin. unfold guess. rewrite !getitem_value_counts.
  destruct (decide (0%Z ∈ survived)) as [H0|]; [|done].
  destruct (decide (1%Z ∈ survived)) as [H1|]; [|done].
  simpl. intros Hg. inversion Hg as [Hg']. clear Hg.
  destruct (argmax_value_counts survived) as (v & Hv & Hin & Hm).
  { intros ->. by apply elem_of_nil in H0. }
  rewrite Hv. f_equal.
  pose proof (Hm _ H0) as Hm0. pose proof (Hm _ H1) as Hm1.
  eapply Forall_forall in Hbin; [|exact Hin].
  destruct (Nat.ltb_spec (count 1 survived) (count 0 survived));
    destruct Hbin; subst v; lia.
Qed.

Lemma guess_agrees_with_argmax_witness :
  Forall (fun v => v = 0%Z \/ v = 1%Z) [0; 1; 1; 0]%Z /\
  guess [0; 1; 1; 0]%Z = Ok 1%Z /\
  argmax (value_counts [0; 1; 1; 0]%Z) = Ok 1%Z.
Proof.
  assert (Forall (fun v => v = 0%Z \/ v = 1%Z) [0; 1; 1; 0]%Z) as Hb.
  { repeat (apply Forall_cons; split; [auto|]). apply Forall_nil_2. }
  split; [exact Hb|]. split; [reflexivity|].
  apply (guess_agrees_with_argmax [0; 1; 1; 0]%Z 1 Hb). reflexivity.
Defined.

(** X11: on a column of zeros and ones that holds both labels, the error
    count of the majority cell is the number of rows with the less frequent
    label, hence at most half of the rows. *)
Theorem guess_errors_minority (survived : list Z) :
  Forall (fun v => v = 0%Z \/ v = 1%Z) survived ->
  0%Z ∈ survived -> 1%Z ∈ survived ->
  guess_errors survived
  = Ok (Z.of_nat (count 0 survived `min` count 1 survived)) /\
  2 * (count 0 survived `min` count 1 survived) <= length survived.
Proof.
  intros Hbin H0 H1.
  destruct (error_count_binary survived Hbin) as (He0 & He1 & Hn).
  split; [|lia].
  unfold guess_errors, guess. rewrite !getitem_value_counts.
  rewrite !decide_True by done. simpl.
  destruct (Nat.ltb_spec (count 1 survived) (count 0 survived)).
  - rewrite He0. f_equal. lia.
  - rewrite He1. f_equal. lia.
Qed.

Lemma guess_errors_minority_witness :
  Forall (fun v => v = 0%Z \/ v = 1%Z) [0; 1; 1; 0; 0]%Z /\
  0%Z ∈ [0; 1; 1; 0; 0]%Z /\ 1%Z ∈ [0; 1; 1; 0; 0]%Z /\
  guess_errors [0; 1; 1; 0; 0]%Z
  = Ok (Z.of_nat (count 0 [0; 1; 1; 0; 0]%Z `min` count 1 [0; 1; 1; 0; 0]%Z))
  /\ 2 * (count 0 [0; 1; 1; 0; 0]%Z `min` count 1 [0; 1; 1; 0; 0]%Z)
     <= length [0; 1; 1; 0; 0]%Z.
Proof.
  assert (Forall (fun v => v = 0%Z \/ v = 1%Z) [0; 1; 1; 0; 0]%Z) as Hb.
  { repeat (apply Forall_cons; split; [auto|]). apply Forall_nil_2. }
  assert (0%Z ∈ [0; 1; 1; 0; 0]%Z) as H0 by left.
  assert (1%Z ∈ [0; 1; 1; 0; 0]%Z) as H1 by (right; left).
  split; [exact Hb|]. split; [exact H0|]. split; [exact H1|].
  apply (guess_errors_minority [0; 1; 1; 0; 0]%Z Hb H0 H1).
Defined.

End Majority.

(** ** Accuracy on the training and the test set *)

Section Accuracy.
Import pandas sklearn.

Lemma count_equal_self (y : list Z) : count_equal y y = length y.
Proof. induction y as [|v y IH]; simpl; [done|]. by rewrite Z.eqb_refl, IH. Qed.

Lemma count_equal_le (y_true y_pred : list Z) :
  count_equal y_true y_pred <= length y_true.
Proof.
  revert y_pred. induction y_true as [|t y_true IH]; intros [|p y_pred];
    simpl; try lia.
  specialize (IH y_pred). destruct (t =? p)%Z; lia.
Qed.

Lemma accuracy_score_bounds (y_true y_pred : list Z) :
  y_true <> [] -> length y_true = length y_pred ->
  exists q, accuracy_score y_true y_pred = Ok (Finite q) /\ (0 <= q <= 1)%Q.
Proof.
  intros Hne Hlen. unfold accuracy_score. rewrite Hlen, Nat.eqb_refl. simpl.
  rewrite <- Hlen. destruct y_true as [|t y_true]; [done|].
  eexists. split; [reflexivity|].
  apply score_bounds; [apply count_equal_le|simpl; lia].
Qed.

(** X12: on a non-empty table in which rows that look alike carry the same
    label, every row looked up in the table gets its own label, and the
    accuracy on the training set is n/n. *)
Theorem tlu_training_accuracy_consistent (table : DataFrame) :
  table <> [] ->
  consistent table ->
  tlu_predicted table table = Ok (map Survived table) /\
  tlu_accuracy table table
  = Ok (Finite (Z.of_nat (length table) # Pos.of_nat (length table))).
Proof.
  intros Hne Hcons.
  assert (tlu_predicted table table = Ok (map Survived table)) as Hp.
  { unfold tlu_predicted, apply. rewrite <- (map_id table) at 1.
    apply mapM_ok_map. intros x Hx. simpl.
    destruct (table_lookup_predictor_similar x table x Hx (similar_refl x))
      as (v & t & Hv & Ht & Hs & <-).
    rewrite Hv. f_equal. symmetry. by apply Hcons. }
  split; [done|]. unfold tlu_accuracy. rewrite Hp. simpl.
  unfold accuracy_score. rewrite Nat.eqb_refl. simpl.
  rewrite count_equal_self, length_map.
  by destruct table.
Qed.

Lemma tlu_training_accuracy_consistent_witness :
  lookup_table <> [] /\
  consistent lookup_table /\
  tlu_predicted lookup_table lookup_table = Ok (map Survived lookup_table) /\
  tlu_accuracy lookup_table lookup_table
  = Ok (Finite (Z.of_nat (length lookup_table)
                # Pos.of_nat (length lookup_table))).
Proof.
  assert (consistent lookup_table) as Hc.
  { intros t1 t2 H1 H2. unfold lookup_table in H1, H2.
    repeat (apply elem_of_cons in H1 as [->|H1]);
      try (by apply elem_of_nil in H1);
      repeat (apply elem_of_cons in H2 as [->|H2]);
      try (by apply elem_of_nil in H2);
      intros Hs; first [reflexivity | discriminate Hs]. }
  split; [discriminate|]. split; [exact Hc|].
  apply (tlu_training_accuracy_consistent lookup_table); [discriminate|].
  exact Hc.
Defined.

(** X13: with a non-empty training table the predictions for any other
    non-empty frame never fail; there is one per row, each is a label seen
    in the training table, and the accuracy is a number between 0 and 1. *)
Theorem tlu_test_predictions (frame table : DataFrame) :
  table <> [] ->
  frame <> [] ->
  exists predicted q,
    tlu_predicted frame table = Ok predicted /\
    length predicted = length frame /\
    Forall (fun l => l ∈ map Survived table) predicted /\
    tlu_accuracy frame table = Ok (Finite q) /\
    (0 <= q <= 1)%Q.
Proof.
  intros Hne Hframe.
  destruct (mapM_ok (fun x => table_lookup_predictor x table) frame)
    as (predicted & Hp & Hall).
  { intros x _.
    destruct (table_lookup_predictor_label_in_table x table Hne)
      as (l & Hl & _). by exists l. }
  apply Forall2_length in Hall as Hlen.
  destruct (accuracy_score_bounds (map Survived frame) predicted)
    as (q & Hq & Hb).
  { by destruct frame. }
  { by rewrite length_map. }
  exists predicted, q. split; [done|]. split; [done|]. split.
  - apply Forall_forall. intros l Hl.
    apply list_elem_of_lookup in Hl as (i & Hi).
    destruct (Forall2_lookup_r _ _ _ _ _ Hall Hi) as (x & _ & Hx).
    destruct (table_lookup_predictor_label_in_table x table Hne)
      as (l' & Hl' & Hin). congruence.
  - split; [|done]. unfold tlu_accuracy, tlu_predicted, apply.
    by rewrite Hp.
Qed.

Lemma tlu_test_predictions_witness :
  lookup_table <> [] /\
  sample <> [] /\
  exists predicted q,
    tlu_predicted sample lookup_table = Ok predicted /\
    length predicted = length sample /\
    Forall (fun l => l ∈ map Survived lookup_table) predicted /\
    tlu_accuracy sample lookup_table = Ok (Finite q) /\
    (0 <= q <= 1)%Q.
Proof.
  split; [discriminate|]. split; [discriminate|].
  apply (tlu_test_predictions sample lookup_table); discriminate.
Defined.

End Accuracy.

(** ** Looking the training rows up in their own table *)

Section SelfLookup.
Import pandas sklearn.

Lemma similar_sym (x y : Row) : similar x y = similar y x.
Proof.
  unfold similar.
  by rewrite (Z.eqb_sym (Pclass y)), (String.eqb_sym (Sex y)),
    (Z.eqb_sym (Siblings_Spouses_Aboard y)),
    (Z.eqb_sym (Parents_Children_Aboard y)).
Qed.

Lemma similar_trans (x y z : Row) :
  similar x y = true -> similar y z = true -> similar x z = true.
Proof.
  rewrite !similar_true. intros (-> & -> & -> & ->) (-> & -> & -> & ->). done.
Qed.

(** Rows that match each other select the same rows. *)
Lemma similar_class (x y t : Row) :
  similar x y = true -> similar x t = similar y t.
Proof.
  intros Hxy. destruct (similar y t) eqn:Hyt.
  - by eapply similar_trans.
  - destruct (similar x t) eqn:Hxt; [|done].
    rewrite <- Hyt. symmetry. eapply similar_trans; [|exact Hxt].
    by rewrite similar_sym.
Qed.

Lemma filter_filter {A : Type} (f g : A -> bool) (l : list A) :
  List.filter f (List.filter g l) = List.filter (fun a => g a && f a) l.
Proof.
  induction l as [|a l IH]; simpl; [done|].
  destruct (g a); simpl; [|done]. destruct (f a); by rewrite IH.
Qed.

Lemma filter_split_length {A : Type} (f : A -> bool) (l : list A) :
  length l
  = length (List.filter f l) + length (List.filter (fun a => negb (f a)) l).
Proof.
  induction l as [|a l IH]; simpl; [done|]. destruct (f a); simpl; lia.
Qed.

Lemma filter_split_under {A : Type} (f g : A -> bool) (l : list A) :
  length (List.filter g l)
  = length (List.filter g (List.filter f l))
    + length (List.filter g (List.filter (fun a => negb (f a)) l)).
Proof.
  induction l as [|a l IH]; simpl; [done|].
  destruct (f a) eqn:Hf, (g a) eqn:Hg; simpl; rewrite ?Hg; simpl; lia.
Qed.

Lemma count_filter (v : Z) (rows : DataFrame) :
  count v (map Survived rows)
  = length (List.filter (fun t => (v =? Survived t)%Z) rows).
Proof.
  induction rows as [|t rows IH]; [done|].
  change (map Survived (t :: rows)) with (Survived t :: map Survived rows).
  rewrite count_cons, IH. simpl.
  case_decide as Heq; destruct (Z.eqb_spec v (Survived t)); simpl;
    congruence || lia.
Qed.

(** Whether the row gets its own label when looked up in [table]. *)
Lemma self_lookup_class (table : DataFrame) (x : Row) :
  x ∈ table ->
  Forall (fun t => Survived t = 0%Z \/ Survived t = 1%Z) table ->
  let class := List.filter (similar x) table in
  let good := fun t => match table_lookup_predictor t table with
                       | Ok l => (l =? Survived t)%Z
                       | Raise _ => false
                       end in
  length class <= 2 * length (List.filter good class).
Proof.
  intros Hx Hbin class good.
  assert (table <> []) as Hne by (intros ->; by apply elem_of_nil in Hx).
  assert (x ∈ class) as Hxc.
  { apply filter_elem. split; [done|apply similar_refl]. }
  destruct (table_lookup_predictor_spec x table Hne) as (v & Hv & Hin & Hm).
  fold class in Hin, Hm.
  assert ((length (map Survived class) =? 0) = false) as Hlen.
  { destruct class; [by apply elem_of_nil in Hxc|done]. }
  rewrite Hlen in Hin, Hm.
  assert (List.filter good class
          = List.filter (fun t => (v =? Survived t)%Z) class) as ->.
  { apply filter_ext_elem. intros t Ht. subst good. simpl.
    apply filter_elem in Ht as [Ht Hs].
    rewrite (table_lookup_predictor_mask t x table), Hv; [done|].
    intros t' _. symmetry. by apply similar_class. }
  rewrite <- count_filter.
  assert (Forall (fun l => l = 0%Z \/ l = 1%Z) (map Survived class)) as Hb.
  { apply Forall_forall. intros l Hl.
    apply list_elem_of_fmap in Hl as (t & -> & Ht).
    apply filter_elem in Ht as [Ht _].
    by eapply Forall_forall in Hbin. }
  destruct (error_count_binary _ Hb) as (_ & _ & Hsum).
  rewrite length_map in Hsum.
  eapply Forall_forall in Hb as Hv01; [|exact Hin].
  assert (forall w, w ∈ map Survived class ->
            count w (map Survived class) <= count v (map Survived class))
    as Hmax.
  { intros w Hw. specialize (Hm w Hw). lia. }
  assert (forall w, count w (map Survived class)
                    <= count v (map Survived class)) as Hmax'.
  { intros w. destruct (decide (w ∈ map Survived class)) as [Hw|Hw];
      [by apply Hmax|]. rewrite count_pos in Hw. lia. }
  pose proof (Hmax' 0%Z). pose proof (Hmax' 1%Z).
  destruct Hv01 as [-> | ->]; lia.
Qed.

Lemma self_lookup_half (table : DataFrame) (n : nat) (P : Row -> bool) :
  Forall (fun t => Survived t = 0%Z \/ Survived t = 1%Z) table ->
  (forall t t', t ∈ table -> t' ∈ table ->
                similar t t' = true -> P t = P t') ->
  length (List.filter P table) <= n ->
  let good := fun t => match table_lookup_predictor t table with
                       | Ok l => (l =? Survived t)%Z
                       | Raise _ => false
                       end in
  length (List.filter P table)
  <= 2 * length (List.filter good (List.filter P table)).
Proof.
  intros Hbin. revert P. induction n as [|n IH]; intros P HP Hn good.
  { destruct (List.filter P table); simpl in *; lia. }
  destruct (List.filter P table) as [|x rows] eqn:Hrows; [simpl; lia|].
  rewrite <- Hrows.
  assert (x ∈ List.filter P table) as Hx by (rewrite Hrows; left).
  apply filter_elem in Hx as [Hx HPx].
  set (P' := fun t => P t && negb (similar x t)).
  assert (List.filter (similar x) (List.filter P table)
          = List.filter (similar x) table) as HA.
  { rewrite filter_filter. apply filter_ext_elem. intros t Ht.
    destruct (similar x t) eqn:Hs; [|by rewrite andb_false_r].
    by rewrite <- (HP x t Hx Ht Hs), HPx. }
  assert (List.filter (fun t => negb (similar x t)) (List.filter P table)
          = List.filter P' table) as HB by apply filter_filter.
  pose proof (filter_split_length (similar x) (List.filter P table)) as Hl.
  pose proof (filter_split_under (similar x) good (List.filter P table))
    as Hg.
  rewrite HA, HB in Hg. rewrite HA, HB in Hl.
  pose proof (self_lookup_class table x Hx Hbin) as HclassA. simpl in HclassA.
  assert (x ∈ List.filter (similar x) table) as HxA.
  { apply filter_elem. split; [done|apply similar_refl]. }
  assert (0 < length (List.filter (similar x) table)) as HposA.
  { destruct (List.filter (similar x) table);
      [by apply elem_of_nil in HxA|simpl; lia]. }
  assert (length (List.filter P' table)
          <= 2 * length (List.filter good (List.filter P' table))) as HclassB.
  { apply IH.
    - intros t t' Ht Ht' Hs. unfold P'.
      rewrite (HP t t' Ht Ht' Hs). f_equal. f_equal.
      destruct (similar x t) eqn:Hxt.
      + symmetry. by eapply similar_trans.
      + destruct (similar x t') eqn:Hxt'; [|done].
        rewrite <- Hxt. eapply similar_trans; [exact Hxt'|].
        by rewrite similar_sym.
    - rewrite Hrows in Hl. simpl in Hl, Hn. lia. }
  fold good in HclassA. lia.
Qed.

(** X14: when the labels are zeros and ones, looking every row of a
    non-empty table up in the table itself never fails and gives at least
    half of the rows their own label: the accuracy on the training set is
    c/n with n <= 2c. *)
Theorem tlu_training_accuracy_half (table : DataFrame) :
  table <> [] ->
  Forall (fun t => Survived t = 0%Z \/ Survived t = 1%Z) table ->
  exists c,
    tlu_accuracy table table
    = Ok (Finite (Z.of_nat c # Pos.of_nat (length table))) /\
    length table <= 2 * c /\ c <= length table.
Proof.
  intros Hne Hbin.
  destruct (mapM_ok (fun x => table_lookup_predictor x table) table)
    as (predicted & Hp & Hall).
  { intros x _.
    destruct (table_lookup_predictor_label_in_table x table Hne)
      as (l & Hl & _). by exists l. }
  set (good := fun t => match table_lookup_predictor t table with
                        | Ok l => (l =? Survived t)%Z
                        | Raise _ => false
                        end).
  assert (forall rows predicted',
            Forall2 (fun x y => table_lookup_predictor x table = Ok y)
              rows predicted' ->
            count_equal (map Survived rows) predicted'
            = length (List.filter good rows)) as Hcount.
  { induction 1 as [|x y rows predicted' Hxy _ IH]; [done|].
    simpl. unfold good at 1. rewrite Hxy, IH, (Z.eqb_sym y).
    by destruct (Survived x =? y)%Z. }
  exists (length (List.filter good table)). split; [|split].
  - unfold tlu_accuracy, tlu_predicted, apply. rewrite Hp. simpl.
    unfold accuracy_score. apply Forall2_length in Hall as Hlen.
    rewrite length_map, <- Hlen, Nat.eqb_refl. simpl.
    rewrite (Hcount _ _ Hall). by destruct table.
  - pose proof (self_lookup_half table (length table) (fun _ => true) Hbin)
      as Hhalf. simpl in Hhalf.
    rewrite (filter_all (fun _ => true) table) in Hhalf by done.
    apply Hhalf; [done|lia].
  - apply filter_length_le.
Qed.

Lemma tlu_training_accuracy_half_witness :
  sample <> [] /\
  Forall (fun t => Survived t = 0%Z \/ Survived t = 1%Z) sample /\
  exists c,
    tlu_accuracy sample sample
    = Ok (Finite (Z.of_nat c # Pos.of_nat (length sample))) /\
    length sample <= 2 * c /\ c <= length sample.
Proof.
  assert (Forall (fun t => Survived t = 0%Z \/ Survived t = 1%Z) sample)
    as Hb.
  { repeat (apply Forall_cons; split; [auto|]). apply Forall_nil_2. }
  split; [discriminate|]. split; [exact Hb|].
  apply (tlu_training_accuracy_half sample); [discriminate | exact Hb].
Defined.

End SelfLookup.

(** ** The evaluation as a whole *)

Section Evaluation.
Import pandas sklearn.

Lemma evaluate_in_range (D : DataFrame) (ages : list Z) (k : Z)
  (p : gmap Z (list float)) :
  (2 <= k <= Z.of_nat (length D))%Z ->
  exists folds p',
    split (mkKFold (Z.to_nat k)) (length D) = Ok folds /\
    folds.*2 = blocks 0 (fold_sizes (length D) (Z.to_nat k)) /\
    evaluate D ages k p = (p', Ok tt) /\
    forall h, p' !! h = if decide (h ∈ ages)
                        then Some (map (fold_score D h) folds.*2)
                        else None.
Proof.
  intros Hk.
  assert (2 <= Z.to_nat k <= length D) as Hk' by lia.
  destruct (split_scored D (Z.to_nat k) Hk') as (folds & Hsplit & Hg & Hsc).
  destruct (for_ages_scored (mkKFold (Z.to_nat k)) D
              (fun h => map (fold_score D h) folds.*2) ages ∅)
    as (p' & Hrun & Hlook).
  { intros h. by apply cv_perf_scored. }
  exists folds, p'. split; [done|]. split; [done|]. split.
  - unfold evaluate, KFold. by destruct (Z.leb_spec k 1); [lia|].
  - intros h. by rewrite Hlook, lookup_empty.
Qed.

Lemma evaluate_too_few (D : DataFrame) (a : Z) (ages : list Z) (k : Z)
  (p : gmap Z (list float)) :
  (1 < k)%Z -> (Z.of_nat (length D) < k)%Z ->
  evaluate D (a :: ages) k p = (∅, Raise ValueError).
Proof.
  intros Hk Hlt. unfold evaluate, KFold.
  destruct (Z.leb_spec k 1); [lia|]. simpl.
  unfold cv_perf. rewrite split_too_few; [done|]. simpl. lia.
Qed.

(** X15: whatever the inputs, the evaluation either ends normally with a
    complete dictionary (one entry per candidate, each of [k] scores) or
    raises ValueError with nothing of the run stored; it raises no other
    exception and never leaves a partly filled dictionary. *)
Theorem evaluate_all_or_nothing (D : DataFrame) (ages : list Z) (k : Z)
  (performance0 : gmap Z (list float)) :
  let out := evaluate D ages k performance0 in
  (out.2 = Ok tt /\
   dom out.1 = list_to_set ages /\
   map_Forall (fun _ scores => length scores = Z.to_nat k) out.1)
  \/ (out.2 = Raise ValueError /\ (out.1 = ∅ \/ out.1 = performance0)).
Proof.
  intros out. subst out.
  destruct (Z.leb_spec k 1) as [Hk|Hk].
  { right. unfold evaluate, KFold. destruct (Z.leb_spec k 1); [|lia].
    simpl. auto. }
  destruct (Z.ltb_spec (Z.of_nat (length D)) k) as [Hlt|Hge].
  - destruct ages as [|a ages].
    + left. unfold evaluate, KFold. destruct (Z.leb_spec k 1); [lia|].
      simpl. split; [done|]. split; [by rewrite dom_empty_L|].
      apply map_Forall_empty.
    + right. rewrite evaluate_too_few by done. simpl. auto.
  - left.
    destruct (evaluate_in_range D ages k performance0)
      as (folds & p' & _ & Hg & Hrun & Hlook); [lia|].
    rewrite Hrun. simpl. split; [done|]. split.
    + apply set_eq. intros h.
      rewrite elem_of_dom, elem_of_list_to_set, Hlook.
      case_decide; split; intros Hx; done || by destruct Hx.
    + intros h scores Hh. rewrite Hlook in Hh.
      case_decide; [|done]. inversion Hh.
      rewrite length_map, Hg, blocks_length, fold_sizes_length; lia.
Qed.

(** X16: the scores stored for a candidate are those the evaluation
    computes when the candidate is the only one: the other candidates, and
    the order of the list, have no influence on them. *)
Theorem evaluate_candidate_alone (D : DataFrame) (ages : list Z) (k : Z)
  (performance0 : gmap Z (list float)) (h : Z) :
  h ∈ ages ->
  (evaluate D ages k performance0).1 !! h
  = (evaluate D [h] k performance0).1 !! h.
Proof.
  intros Hh.
  destruct (Z.leb_spec k 1) as [Hk|Hk].
  { unfold evaluate, KFold. by destruct (Z.leb_spec k 1); [|lia]. }
  destruct (Z.ltb_spec (Z.of_nat (length D)) k) as [Hlt|Hge].
  - destruct ages as [|a ages]; [by apply elem_of_nil in Hh|].
    by rewrite !evaluate_too_few.
  - destruct (evaluate_in_range D ages k performance0)
      as (folds & p' & Hsplit & _ & Hrun & Hlook); [lia|].
    destruct (evaluate_in_range D [h] k performance0)
      as (folds1 & p1 & Hsplit1 & _ & Hrun1 & Hlook1); [lia|].
    rewrite Hrun, Hrun1. simpl. rewrite Hlook, Hlook1.
    rewrite !decide_True; [|left|done]. congruence.
Qed.

Lemma evaluate_candidate_alone_witness :
  50%Z ∈ [10; 50]%Z /\
  (evaluate sample [10; 50]%Z 5 ∅).1 !! 50%Z
  = (evaluate sample [50]%Z 5 ∅).1 !! 50%Z.
Proof.
  assert (50%Z ∈ [10; 50]%Z) as Hin by (right; left).
  split; [exact Hin | apply (evaluate_candidate_alone sample _ 5 ∅ 50 Hin)].
Defined.

(** X17: with as many folds as records (leave-one-out), every fold holds
    out one record and every stored score is 0 or 1. *)
Theorem evaluate_leave_one_out (D : DataFrame) (ages : list Z)
  (performance0 : gmap Z (list float)) :
  2 <= length D ->
  exists performance,
    evaluate D ages (Z.of_nat (length D)) performance0
    = (performance, Ok tt) /\
    make_folds (length D) (Z.of_nat (length D))
    = Ok ((fun i => [i]) <$> seq 0 (length D)) /\
    forall h scores s,
      performance !! h = Some scores -> s ∈ scores ->
      s = Finite (0 # 1) \/ s = Finite (1 # 1).
Proof.
  intros Hn.
  destruct (evaluate_in_range D ages (Z.of_nat (length D)) performance0)
    as (folds & p' & _ & Hg & Hrun & Hlook); [lia|].
  rewrite Nat2Z.id in Hg.
  assert (fold_sizes (length D) (length D) = replicate (length D) 1) as Hsz.
  { unfold fold_sizes. rewrite Nat.Div0.mod_same, Nat.div_same by lia.
    simpl. by rewrite Nat.sub_0_r. }
  assert (forall c m, blocks c (replicate m 1) = (fun i => [i]) <$> seq c m)
    as Hblocks.
  { intros c m. revert c. induction m as [|m IH]; intros c; simpl; [done|].
    by rewrite IH, Nat.add_1_r. }
  exists p'. split; [done|]. split.
  { rewrite make_folds_in_range by lia.
    by rewrite Nat2Z.id, Hsz, Hblocks. }
  intros h scores s Hh Hs. rewrite Hlook in Hh.
  case_decide; [|done]. inversion Hh; subst scores. clear Hh.
  rewrite Hg, Hsz, Hblocks in Hs.
  apply list_elem_of_fmap in Hs as (g & -> & Hgi).
  apply list_elem_of_fmap in Hgi as (i & -> & Hi).
  apply elem_of_seq in Hi.
  unfold fold_score.
  pose proof (held_out_length D i 1) as Hlen.
  change [i] with (seq i 1). rewrite Hlen by lia.
  pose proof (correct_le (training D (seq i 1)) h (held_out D (seq i 1)))
    as Hc.
  rewrite Hlen in Hc by lia.
  destruct (correct _ _ _) as [|[|c]]; [by left|by right|lia].
Qed.

Lemma evaluate_leave_one_out_witness :
  2 <= length lookup_table /\
  exists performance,
    evaluate lookup_table [10; 50]%Z (Z.of_nat (length lookup_table)) ∅
    = (performance, Ok tt) /\
    make_folds (length lookup_table) (Z.of_nat (length lookup_table))
    = Ok ((fun i => [i]) <$> seq 0 (length lookup_table)) /\
    forall h scores s,
      performance !! h = Some scores -> s ∈ scores ->
      s = Finite (0 # 1) \/ s = Finite (1 # 1).
Proof.
  split; [simpl; lia|].
  apply (evaluate_leave_one_out lookup_table [10; 50]%Z ∅). simpl; lia.
Defined.

End Evaluation.

(** ** The evaluation under any order of its tasks *)

Section Schedules.
Import pandas sklearn.

Lemma omap_ext_elem {A B : Type} (f g : A -> option B) (l : list A) :
  (forall a, a ∈ l -> f a = g a) -> omap f l = omap g l.
Proof.
  induction l as [|a l IH]; intros Hfg; [done|]. simpl.
  rewrite (Hfg a) by left.
  assert (omap f l = omap g l) as Hrest.
  { apply IH. intros b Hb. apply Hfg. by right. }
  destruct (g a); [f_equal|]; exact Hrest.
Qed.

Lemma omap_lookup_from {A B : Type} (g : A -> B) (before l : list A) :
  omap (fun f => g <$> (before ++ l) !! f) (seq (length before) (length l))
  = map g l.
Proof.
  revert before. induction l as [|a l IH]; intros before; [done|]. simpl.
  rewrite lookup_app_r, Nat.sub_diag by lia. simpl. f_equal.
  specialize (IH (before ++ [a])).
  rewrite <- app_assoc, length_app in IH. simpl in IH.
  by rewrite Nat.add_1_r in IH.
Qed.

Lemma omap_lookup_seq {A B : Type} (g : A -> B) (l : list A) :
  omap (fun f => g <$> l !! f) (seq 0 (length l)) = map g l.
Proof. apply (omap_lookup_from g [] l). Qed.

(** Once every task has run, the slot of a pair holds its score, whatever
    the order and however often the pair was processed. *)
Lemma run_tasks_scored (D : DataFrame) (folds : list (list nat * list nat))
  (order : list (Z * nat)) (slots : gmap (Z * nat) float) :
  (forall task : Z * nat, task ∈ order -> task.2 < length folds) ->
  (forall fold h, fold ∈ folds ->
     score_fold D h fold.1 fold.2 = Ok (fold_score D h fold.2)) ->
  exists slots',
    run_tasks D folds order slots = (slots', Ok tt) /\
    forall h f,
      slots' !! (h, f)
      = if decide ((h, f) ∈ order)
        then (fun fold => fold_score D h fold.2) <$> folds !! f
        else slots !! (h, f).
Proof.
  intros Hin Hsc. revert slots.
  induction order as [|[h0 f0] order IH]; intros slots.
  - exists slots. split; [done|]. intros h f.
    rewrite decide_False; [done|]. apply not_elem_of_nil.
  - destruct (lookup_lt_is_Some_2 folds f0) as [fold Hfold].
    { apply (Hin (h0, f0)). left. }
    simpl. unfold run_task. simpl. rewrite Hfold.
    rewrite Hsc by (by eapply list_elem_of_lookup_2).
    destruct (IH (fun task Ht => Hin task (list_elem_of_further _ _ _ Ht))
                (<[(h0, f0) := fold_score D h0 fold.2]> slots))
      as (slots' & Hrun & Hlook).
    exists slots'. split; [done|]. intros h f. rewrite Hlook.
    destruct (decide ((h, f) ∈ order)) as [Hrest|Hrest].
    { rewrite decide_True; [done|by right]. }
    destruct (decide ((h, f) = (h0, f0))) as [Heq|Hne].
    + inversion Heq; subst h f. rewrite lookup_insert_eq.
      rewrite decide_True by left. by rewrite Hfold.
    + rewrite lookup_insert_ne by done.
      rewrite decide_False; [done|].
      intros Hc. apply elem_of_cons in Hc as [?|?]; done.
Qed.

Lemma gather_lookup (candidates : list Z) (k : nat)
  (slots : gmap (Z * nat) float) (h : Z) :
  gather candidates k slots !! h
  = if decide (h ∈ candidates)
    then Some (omap (fun f => slots !! (h, f)) (seq 0 k))
    else None.
Proof.
  unfold gather. induction candidates as [|a cs IH].
  - rewrite fmap_nil, list_to_map_nil, lookup_empty, decide_False; [done|].
    apply not_elem_of_nil.
  - rewrite fmap_cons, list_to_map_cons.
    destruct (decide (h = a)) as [->|Hne].
    + rewrite lookup_insert_eq, decide_True; [done|left].
    + rewrite lookup_insert_ne by done. rewrite IH.
      destruct (decide (h ∈ cs)) as [Hc|Hc].
      * rewrite decide_True; [done|by right].
      * rewrite decide_False; [done|].
        intros Hin. apply elem_of_cons in Hin as [?|?]; done.
Qed.

Lemma fold_major_covers (candidates : list Z) (k : nat) :
  covers candidates k (fold_major candidates k).
Proof.
  intros h f. unfold fold_major. rewrite list_elem_of_bind. split.
  - intros (f' & Hin & Hf). apply list_elem_of_fmap in Hin as (h' & Heq & Hh).
    inversion Heq; subst. apply elem_of_seq in Hf. split; [done|lia].
  - intros [Hh Hf]. exists f. split; [|apply elem_of_seq; lia].
    apply list_elem_of_fmap. by exists h.
Qed.


(** Whatever the order of the tasks, the mapping is the one the notebook
    builds; the outcome is the same too, unless the notebook is given no
    candidate and never asks for the folds that do not exist. *)
Lemma evaluate_tasks_covers (D : DataFrame) (candidates : list Z) (k : Z)
  (order : list (Z * nat)) (p0 : gmap Z (list float)) :
  covers candidates (Z.to_nat k) order ->
  (evaluate_tasks D candidates k order p0).1 = (evaluate D candidates k p0).1
  /\ (candidates <> [] \/ (k <= Z.of_nat (length D))%Z ->
      evaluate_tasks D candidates k order p0 = evaluate D candidates k p0).
Proof.
  intros Hcov.
  destruct (Z.leb_spec k 1) as [Hk1|Hk1].
  { unfold evaluate_tasks, evaluate, KFold.
    by destruct (Z.leb_spec k 1); [|lia]. }
  destruct (decide (Z.to_nat k <= length D)) as [Hle|Hgt].
  - destruct (evaluate_in_range D candidates k p0)
      as (folds & p' & Hsplit & Hg & Hrun & Hlook); [lia|].
    destruct (split_scored D (Z.to_nat k)) as (folds' & Hsplit' & _ & Hsc);
      [lia|].
    rewrite Hsplit in Hsplit'. inversion Hsplit'; subst folds'.
    assert (length folds = Z.to_nat k) as Hlen.
    { rewrite <- (length_fmap snd), Hg, blocks_length, fold_sizes_length;
        lia. }
    destruct (run_tasks_scored D folds order ∅) as (slots & Htasks & Hslots).
    { intros [h f] Ht. apply Hcov in Ht. simpl. lia. }
    { done. }
    assert (evaluate_tasks D candidates k order p0 = (p', Ok tt)) as Heq.
    { unfold evaluate_tasks, KFold. destruct (Z.leb_spec k 1); [lia|].
      rewrite Hsplit, Htasks. f_equal. apply map_eq. intros h.
      rewrite gather_lookup, Hlook. case_decide as Hh; [|done]. f_equal.
      rewrite <- list_fmap_compose.
      transitivity
        (omap (fun f => (fun fold => fold_score D h fold.2) <$> folds !! f)
           (seq 0 (length folds)));
        [|exact (omap_lookup_seq (fun fold => fold_score D h fold.2) folds)].
      apply omap_ext_elem. intros f Hf. apply elem_of_seq in Hf.
      rewrite Hslots, decide_True; [done|]. apply Hcov. split; [done|lia]. }
    rewrite Heq, Hrun. by split.
  - assert (evaluate_tasks D candidates k order p0 = (∅, Raise ValueError))
      as Heq.
    { unfold evaluate_tasks, KFold. destruct (Z.leb_spec k 1); [lia|].
      by rewrite split_too_few by (simpl; lia). }
    rewrite Heq. destruct candidates as [|a candidates].
    + unfold evaluate, KFold. destruct (Z.leb_spec k 1); [lia|]. simpl.
      split; [done|]. intros [?|?]; [done|lia].
    + rewrite evaluate_too_few by lia. by split.
Qed.



(** Listing a candidate twice, or processing the folds backwards, changes
    nothing. *)
Example evaluate_tasks_repeats :
  (evaluate_tasks sample [10; 10]%Z 5 (fold_major [10; 10]%Z 5) ∅).1
  = (evaluate sample [10; 10]%Z 5 ∅).1
  /\ (evaluate_tasks sample [10; 50]%Z 5
        (rev (candidate_major [10; 50]%Z 5)) ∅).1 !! 10%Z
     = Some [Finite (1 # 2); Finite (1 # 2); Finite (2 # 2);
             Finite (2 # 2); Finite (2 # 2)].
Proof.
  split.
  - apply (evaluate_tasks_covers sample [10; 10]%Z 5).
    apply fold_major_covers.
  - reflexivity.
Qed.

End Schedules.

(** ** The evaluation does not depend on the session *)

Section Sessions.
Import pandas sklearn.

Variable rng_shuffle : N -> list nat -> list nat * N.

Lemma session_eta (s : session) :
  mkSession (generator s) (performance_dict s) = s.
Proof. by destruct s. Qed.

(** Calls that leave the session alone can be made outside of it. *)
Lemma apply_in_session_pure {A B : Type} (f : A -> cell B)
  (g : A -> result B) (frame : list A) (s : session) :
  (forall x s', f x s' = (s', g x)) ->
  apply_in_session f frame s = (s, mapM g frame).
Proof.
  intros Hf. induction frame as [|x frame IH]; [done|].
  simpl. unfold mbind, cell_bind. rewrite Hf.
  destruct (g x) as [y|e]; [|done]. simpl. rewrite IH.
  by destruct (mapM g frame).
Qed.

Lemma score_fold_in_session_pure (D : DataFrame) (age : Z)
  (train test : list nat) (s : session) :
  score_fold_in_session D age train test s = (s, score_fold D age train test).
Proof.
  unfold score_fold_in_session, score_fold, mbind, cell_bind, lift.
  destruct (iloc D test) as [held|e]; [|done]. simpl.
  destruct (iloc D train) as [table|e]; [|done]. simpl.
  rewrite (apply_in_session_pure _
             (fun x => table_lookup_predictor_2 x table age)) by done.
  unfold apply.
  destruct (mapM _ held) as [predicted|e]; [|done]. simpl.
  by destruct (iloc (map Survived D) test).
Qed.

(** Without [shuffle] the splitter draws nothing from the generator. *)
Lemma split_in_session_unshuffled (k n : nat) (s : session) :
  split_in_session rng_shuffle (mkKFoldS k false) n s
  = (s, split (mkKFold k) n).
Proof.
  unfold split_in_session, split. simpl.
  destruct (n <? k); [done|]. by rewrite session_eta.
Qed.

Lemma cv_perf_in_session_unshuffled (k : nat) (D : DataFrame) (age : Z)
  (s : session) :
  cv_perf_in_session rng_shuffle (mkKFoldS k false) D age s
  = (s, cv_perf (mkKFold k) D age).
Proof.
  unfold cv_perf_in_session, cv_perf, mbind, cell_bind.
  rewrite split_in_session_unshuffled.
  destruct (split (mkKFold k) (length D)) as [folds|e]; [|done]. simpl.
  apply apply_in_session_pure. intros fold s'.
  apply score_fold_in_session_pure.
Qed.

Lemma for_ages_in_session_unshuffled (k : nat) (D : DataFrame)
  (ages : list Z) (s : session) :
  for_ages_in_session rng_shuffle (mkKFoldS k false) D ages s
  = (mkSession (generator s)
       (for_ages (mkKFold k) D ages (performance_dict s)).1,
     (for_ages (mkKFold k) D ages (performance_dict s)).2).
Proof.
  revert s. induction ages as [|age ages IH]; intros s.
  - simpl. by rewrite session_eta.
  - simpl. unfold mbind, cell_bind.
    rewrite cv_perf_in_session_unshuffled.
    destruct (cv_perf (mkKFold k) D age) as [scores|e]; simpl.
    + by rewrite IH.
    + by rewrite session_eta.
Qed.

(** The cells of the evaluation, run in a session, are the function
    [evaluate] of the dictionary the session holds; the generator stays
    where it was. *)
Lemma evaluate_in_session_spec (D : DataFrame) (ages : list Z) (k : Z)
  (s : session) :
  evaluate_in_session rng_shuffle D ages k s
  = (mkSession (generator s) (evaluate D ages k (performance_dict s)).1,
     (evaluate D ages k (performance_dict s)).2).
Proof.
  unfold evaluate_in_session, evaluate_with, evaluate, KFold_call, KFold,
    mbind, cell_bind, lift.
  destruct (Z.leb_spec k 1); simpl.
  - by rewrite session_eta.
  - by rewrite for_ages_in_session_unshuffled.
Qed.

(** Once the splitter is built, [evaluate] forgets the dictionary it is
    given. *)
Lemma evaluate_fresh (D : DataFrame) (ages : list Z) (k : Z)
  (p q : gmap Z (list float)) :
  (1 < k)%Z -> evaluate D ages k p = evaluate D ages k q.
Proof.
  intros Hk. unfold evaluate, KFold. by destruct (Z.leb_spec k 1); [lia|].
Qed.

Lemma evaluate_no_splitter (D : DataFrame) (ages : list Z) (k : Z)
  (p : gmap Z (list float)) :
  (k <= 1)%Z -> evaluate D ages k p = (p, Raise ValueError).
Proof.
  intros Hk. unfold evaluate, KFold. by destruct (Z.leb_spec k 1); [|lia].
Qed.

End Sessions.

(** C8: run in any session, the cells of the evaluation compute the
    function [evaluate] and leave the generator of random numbers where it
    was: the splitter is built without [shuffle] and draws nothing.  Two
    sessions that differ in the state of the generator and in what
    [performance] held before end with the same outcome and, once the
    splitter is built, the same dictionary (for a fold count below 2 the
    run raises and leaves the session untouched).  A second invocation in
    the session the first one left reproduces its result.  A call of the
    predictor leaves the session as it found it and returns the same label
    in every session. *)
Theorem evaluate_repeatable (rng_shuffle : N -> list nat -> list nat * N)
  (D : DataFrame) (ages : list Z) (k : Z) (s1 s2 : session) :
  let run := evaluate_in_session rng_shuffle D ages k in
  (performance_dict (run s1).1, (run s1).2)
  = evaluate D ages k (performance_dict s1) /\
  generator (run s1).1 = generator s1 /\
  (run s1).2 = (run s2).2 /\
  (performance_dict (run s1).1 = performance_dict (run s2).1
   \/ ((k <= 1)%Z /\ (run s1).1 = s1 /\ (run s2).1 = s2)) /\
  run (run s1).1 = run s1 /\
  forall x table age,
    (predict_in_session x table age s1).1 = s1 /\
    (predict_in_session x table age s1).2
    = (predict_in_session x table age s2).2 /\
    (predict_in_session x table age s1).2
    = table_lookup_predictor_2 x table age.
Proof.
  intros run. subst run. rewrite !evaluate_in_session_spec. simpl.
  split; [by destruct (evaluate D ages k (performance_dict s1))|].
  split; [done|].
  destruct (Z.leb_spec k 1) as [Hk|Hk].
  - rewrite !evaluate_no_splitter by done. simpl.
    rewrite !session_eta. split; [done|]. split; [by right|].
    by split.
  - rewrite (evaluate_fresh D ages k (performance_dict s2)
               (performance_dict s1)) by done.
    split; [done|]. split; [by left|]. split; [|done].
    by rewrite (evaluate_fresh D ages k
                  (evaluate D ages k (performance_dict s1)).1
                  (performance_dict s1)) by done.
Qed.

(** A splitter built with [shuffle=True] is told apart: its folds, and the
    scores of the evaluation, follow the state of the generator. *)
Example shuffled_evaluation_depends_on_generator :
  (split_in_session sample_shuffle (mkKFoldS 2 true) 4 (mkSession 0 ∅)).2
  = Ok [([2; 3], [0; 1]); ([0; 1], [2; 3])]
  /\ (split_in_session sample_shuffle (mkKFoldS 2 true) 4 (mkSession 1 ∅)).2
     = Ok [([0; 1], [2; 3]); ([2; 3], [0; 1])]
  /\ performance_dict
       (evaluate_with sample_shuffle true sample [10]%Z 5 (mkSession 0 ∅)).1
     <> performance_dict
          (evaluate_with sample_shuffle true sample [10]%Z 5
             (mkSession 1 ∅)).1
  /\ evaluate_with sample_shuffle false sample [10]%Z 5 (mkSession 0 ∅)
     = (mkSession 0 (evaluate sample [10]%Z 5 ∅).1, Ok tt).
Proof.
  split; [reflexivity|]. split; [reflexivity|]. split; [|reflexivity].
  intros Heq. apply (f_equal (fun p => p !! 10%Z)) in Heq.
  vm_compute in Heq. discriminate.
Qed.

(** ** What the folds do to the records *)

Section Records.
Import pandas sklearn.

Lemma mapM_ext_elem {A B : Type} (f g : A -> result B) (l : list A) :
  (forall a, a ∈ l -> f a = g a) -> mapM f l = mapM g l.
Proof.
  induction l as [|a l IH]; intros Hfg; [done|].
  simpl. rewrite (Hfg a) by left. rewrite IH; [done|].
  intros b Hb. apply Hfg. by right.
Qed.

Lemma iloc_elem {A : Type} (obj : list A) positions rows a :
  iloc obj positions = Ok rows -> a ∈ rows -> a ∈ obj.
Proof.
  unfold iloc. revert rows. induction positions as [|i positions IH];
    intros rows; simpl.
  - intros Heq. inversion Heq. intros Hin. by apply elem_of_nil in Hin.
  - destruct (obj !! i) as [b|] eqn:Hb; simpl; [|done].
    destruct (mapM _ positions) as [rest|]; simpl; [|done].
    intros Heq. inversion Heq; subst rows.
    intros Hin. apply elem_of_cons in Hin as [->|Hin].
    + by eapply list_elem_of_lookup_2.
    + by eapply IH.
Qed.

(** X18: two cutoff ages that put every record of the dataset on the same
    side lead to the same predictions, so the inner loop returns the same
    list of fold scores for both (or fails alike). *)
Theorem cv_perf_same_cut (kf : KFoldT) (D : DataFrame) (h1 h2 : Z) :
  (forall x, x ∈ D -> float_lt (Age x) h1 = float_lt (Age x) h2) ->
  cv_perf kf D h1 = cv_perf kf D h2.
Proof.
  intros Hcut. unfold cv_perf.
  destruct (split kf (length D)) as [folds|]; simpl; [|done].
  apply mapM_ext_elem. intros fold _. unfold score_fold.
  destruct (iloc D fold.2) as [held|] eqn:Hheld; simpl; [|done].
  destruct (iloc D fold.1) as [table|] eqn:Htable; simpl; [|done].
  unfold apply.
  rewrite (mapM_ext_elem
             (fun x => table_lookup_predictor_2 x table h1)
             (fun x => table_lookup_predictor_2 x table h2)); [done|].
  intros x Hx. apply table_lookup_predictor_2_mask. intros t Ht.
  unfold similar_2.
  by rewrite (Hcut x (iloc_elem _ _ _ _ Hheld Hx)),
    (Hcut t (iloc_elem _ _ _ _ Htable Ht)).
Qed.

Lemma cv_perf_same_cut_witness :
  (forall x, x ∈ sample -> float_lt (Age x) 10 = float_lt (Age x) 50) /\
  cv_perf (mkKFold 5) sample 10 = cv_perf (mkKFold 5) sample 50.
Proof.
  assert (forall x, x ∈ sample ->
                    float_lt (Age x) 10 = float_lt (Age x) 50) as Hcut.
  { intros x Hx. unfold sample in Hx.
    repeat (apply elem_of_cons in Hx as [->|Hx]; [reflexivity|]).
    by apply elem_of_nil in Hx. }
  split; [exact Hcut | apply (cv_perf_same_cut (mkKFold 5) sample 10 50 Hcut)].
Defined.

Lemma select_from_partition_perm {A : Type} mask offset (D : list A) :
  select_from (fun i => negb (mask i)) offset D ++ select_from mask offset D
  ≡ₚ D.
Proof.
  revert offset. induction D as [|x D IH]; intros o; simpl; [done|].
  destruct (mask o); simpl.
  - by rewrite <- Permutation_middle, IH.
  - by rewrite IH.
Qed.

Lemma select_from_ext {A : Type} (m1 m2 : nat -> bool) offset (D : list A) :
  (forall i, offset <= i -> m1 i = m2 i) ->
  select_from m1 offset D = select_from m2 offset D.
Proof.
  revert offset. induction D as [|x D IH]; intros o Hm; simpl; [done|].
  rewrite (Hm o), (IH (S o)); [done| |lia].
  intros i Hi. apply Hm. lia.
Qed.

Lemma select_from_none {A : Type} offset (D : list A) :
  select_from (fun _ => false) offset D = [].
Proof. revert offset. induction D as [|x D IH]; intros o; simpl; auto. Qed.

(** Selecting a block of positions is slicing. *)
Lemma select_from_block {A : Type} (D : list A) offset a s :
  offset <= a ->
  select_from (fun i => bool_decide (i ∈ seq a s)) offset D
  = take s (drop (a - offset) D).
Proof.
  revert offset a s. induction D as [|x D IH]; intros o a s Hle; simpl.
  { by rewrite drop_nil, take_nil. }
  destruct (decide (o = a)) as [->|Hne].
  - rewrite Nat.sub_diag. simpl. destruct s as [|s].
    + rewrite bool_decide_eq_false_2 by (rewrite elem_of_seq; lia).
      rewrite (select_from_ext _ (fun _ => false)).
      * apply select_from_none.
      * intros i _. apply bool_decide_eq_false. rewrite elem_of_seq. lia.
    + rewrite bool_decide_eq_true_2 by (rewrite elem_of_seq; lia).
      simpl. f_equal.
      rewrite (select_from_ext _ (fun i => bool_decide (i ∈ seq (S a) s))).
      * rewrite IH by lia. by rewrite Nat.sub_diag.
      * intros i Hi. apply bool_decide_ext.
        rewrite ?elem_of_cons, !elem_of_seq. lia.
  - rewrite bool_decide_eq_false_2 by (rewrite elem_of_seq; lia).
    rewrite (IH (S o) a s) by lia.
    by replace (a - o) with (S (a - S o)) by lia.
Qed.

Lemma held_out_block (D : DataFrame) a s :
  held_out D (seq a s) = take s (drop a D).
Proof.
  unfold held_out. rewrite select_from_block by lia. by rewrite Nat.sub_0_r.
Qed.

Lemma blocks_held_out (D : DataFrame) current sizes :
  concat (map (held_out D) (blocks current sizes))
  = take (sum_list sizes) (drop current D).
Proof.
  revert current. induction sizes as [|s sizes IH]; intros c; simpl.
  - by rewrite take_0.
  - rewrite IH, held_out_block, <- drop_drop. apply take_take_drop.
Qed.

Lemma iloc_block (D : DataFrame) a s :
  a + s <= length D -> iloc D (seq a s) = Ok (held_out D (seq a s)).
Proof.
  intros Hle. unfold held_out. rewrite <- iloc_filter. f_equal.
  symmetry. by apply filter_mask_block.
Qed.

(** X19: for a fold count in range, every fold splits the records into a
    non-empty training part and a non-empty held-out part that together are
    the dataset, and the held-out parts of the folds, put end to end in fold
    order, are the dataset itself: every record is scored once. *)
Theorem folds_partition_records (D : DataFrame) (k : Z) :
  (2 <= k <= Z.of_nat (length D))%Z ->
  exists kf folds helds,
    KFold k = Ok kf /\
    split kf (length D) = Ok folds /\
    (forall fold, fold ∈ folds ->
       exists table held,
         iloc D fold.1 = Ok table /\ iloc D fold.2 = Ok held /\
         table ++ held ≡ₚ D /\ table <> [] /\ held <> []) /\
    mapM (fun fold => iloc D fold.2) folds = Ok helds /\
    concat helds = D.
Proof.
  intros Hk.
  assert (2 <= Z.to_nat k <= length D) as Hk' by lia.
  exists (mkKFold (Z.to_nat k)). eexists.
  exists (map (held_out D) (blocks 0 (fold_sizes (length D) (Z.to_nat k)))).
  split. { unfold KFold. by destruct (Z.leb_spec k 1); [lia|]. }
  split; [by apply split_in_range|]. split; [|split].
  - intros fold Hin. apply list_elem_of_fmap in Hin as (g & -> & Hg).
    apply blocks_elem in Hg as (a & s & -> & Hs & _ & Hle).
    rewrite fold_sizes_sum in Hle by lia.
    apply fold_sizes_bounds in Hs; [|done].
    exists (training D (seq a s)), (held_out D (seq a s)). simpl.
    split; [apply iloc_filter|]. split; [apply iloc_block; lia|].
    split; [apply select_from_partition_perm|].
    pose proof (training_length D a s) as Ht.
    pose proof (held_out_length D a s) as Hh.
    split; intros Hnil; rewrite Hnil in *; simpl in *; lia.
  - apply mapM_ok_map. intros g Hg. simpl.
    apply blocks_elem in Hg as (a & s & -> & _ & _ & Hle).
    rewrite fold_sizes_sum in Hle by lia. apply iloc_block. lia.
  - rewrite blocks_held_out, fold_sizes_sum by lia.
    simpl. apply take_ge. lia.
Qed.

Lemma folds_partition_records_witness :
  (2 <= 5 <= Z.of_nat (length sample))%Z /\
  exists kf folds helds,
    KFold 5 = Ok kf /\
    split kf (length sample) = Ok folds /\
    (forall fold, fold ∈ folds ->
       exists table held,
         iloc sample fold.1 = Ok table /\ iloc sample fold.2 = Ok held /\
         table ++ held ≡ₚ sample /\ table <> [] /\ held <> []) /\
    mapM (fun fold => iloc sample fold.2) folds = Ok helds /\
    concat helds = sample.
Proof.
  split; [simpl; lia|].
  apply (folds_partition_records sample 5). simpl; lia.
Defined.

End Records.

(** ** Dropping two feature columns *)

Section Features.

Lemma select_from_all {A : Type} (mask : nat -> bool) offset (D : list A) :
  (forall i, offset <= i -> mask i = true) -> select_from mask offset D = D.
Proof.
  revert offset. induction D as [|x D IH]; intros o Hm; simpl; [done|].
  rewrite (Hm o), (IH (S o)); [done| |lia]. intros i Hi. apply Hm. lia.
Qed.

Lemma delete_2_6 {A : Type} (a0 a1 a2 a3 a4 a5 a6 : A) (rest : list A) :
  numpy.delete (a0 :: a1 :: a2 :: a3 :: a4 :: a5 :: a6 :: rest) [2; 6]
  = a0 :: a1 :: a3 :: a4 :: a5 :: rest.
Proof.
  unfold numpy.delete. simpl. do 5 f_equal.
  apply select_from_all. intros i Hi. apply negb_true_iff.
  apply bool_decide_eq_false. rewrite !elem_of_cons, elem_of_nil. lia.
Qed.

(** X20: on rows of at least seven columns, the feature selection of the
    ridge-regression cells keeps the number of rows, shortens every row by
    two, and leaves the remaining columns in order: columns 0-1 stay,
    columns 3-5 move up by one, the columns from 7 on by two. *)
Theorem drop_features_columns {A : Type} (data : list (list A)) :
  Forall (fun row => 7 <= length row) data ->
  length (drop_features data) = length data /\
  forall i row,
    data !! i = Some row ->
    exists row',
      drop_features data !! i = Some row' /\
      length row' + 2 = length row /\
      forall j, row' !! j
                = row !! (if j <? 2 then j else if j <? 5 then j + 1
                          else j + 2).
Proof.
  intros Hall. unfold drop_features, numpy.delete_axis1.
  split; [by rewrite length_map|].
  intros i row Hi. eexists. split.
  { rewrite list_lookup_fmap, Hi. reflexivity. }
  eapply Forall_forall in Hall; [|by eapply list_elem_of_lookup_2].
  destruct row as [|a0 [|a1 [|a2 [|a3 [|a4 [|a5 [|a6 rest]]]]]]];
    simpl in Hall; try lia.
  rewrite delete_2_6. split; [simpl; lia|].
  intros j. do 5 (destruct j as [|j]; [reflexivity|]).
  simpl. by replace (j + 2) with (S (S j)) by lia.
Qed.

Lemma drop_features_columns_witness :
  Forall (fun row => 7 <= length row)
    [[0; 1; 2; 3; 4; 5; 6; 7; 8; 9; 10; 11; 12]] /\
  length (drop_features [[0; 1; 2; 3; 4; 5; 6; 7; 8; 9; 10; 11; 12]])
  = length [[0; 1; 2; 3; 4; 5; 6; 7; 8; 9; 10; 11; 12]] /\
  forall i row,
    [[0; 1; 2; 3; 4; 5; 6; 7; 8; 9; 10; 11; 12]] !! i = Some row ->
    exists row',
      drop_features [[0; 1; 2; 3; 4; 5; 6; 7; 8; 9; 10; 11; 12]] !! i
      = Some row' /\
      length row' + 2 = length row /\
      forall j, row' !! j
                = row !! (if j <? 2 then j else if j <? 5 then j + 1
                          else j + 2).
Proof.
  assert (Forall (fun row => 7 <= length row)
            [[0; 1; 2; 3; 4; 5; 6; 7; 8; 9; 10; 11; 12]]) as Hall.
  { apply Forall_cons. split; [simpl; lia|apply Forall_nil_2]. }
  split; [exact Hall|].
  apply (drop_features_columns
           [[0; 1; 2; 3; 4; 5; 6; 7; 8; 9; 10; 11; 12]] Hall).
Defined.

End Features.

(** ** The affinity matrix of the headlines *)

Section Headlines.
Import headlines.
Context {A : Type} {EqA : EqDecision A} {CountA : Countable A}.
Implicit Types (sets : list (gset (list A))) (sims : gmap (nat * nat) Q).

Lemma jaccard_index_sym sets i j :
  jaccard_index sets i j = jaccard_index sets j i.
Proof.
  unfold jaccard_index. simpl.
  by rewrite (intersection_comm_L (default ∅ (sets !! i))),
    (union_comm_L (default ∅ (sets !! i))).
Qed.

Lemma jaccard_done (h1 h2 : gset (list A)) :
  h1 <> ∅ ->
  jaccard h1 h2
  = Done (Z.of_nat (size (h1 ∩ h2)) # Pos.of_nat (size (h1 ∪ h2))).
Proof.
  intros Hne. unfold jaccard.
  destruct (Nat.eqb_spec (size (h1 ∪ h2)) 0) as [Hz|]; [|done].
  exfalso. apply size_empty_inv in Hz. apply Hne.
  apply leibniz_equiv. set_solver.
Qed.

Lemma for_j_done sets i h1 js sims :
  sets !! i = Some h1 -> h1 <> ∅ ->
  (forall j, j ∈ js -> j < length sets) ->
  exists sims',
    for_j sets i js sims = Done sims' /\
    forall a b,
      sims' !! (a, b)
      = if decide ((a = i /\ b ∈ js) \/ (b = i /\ a ∈ js))
        then Some (jaccard_index sets a b) else sims !! (a, b).
Proof.
  intros Hi Hne. revert sims.
  induction js as [|j js IH]; intros sims Hjs.
  - exists sims. split; [done|]. intros a b.
    rewrite decide_False; [done|]. rewrite !elem_of_nil. tauto.
  - destruct (lookup_lt_is_Some_2 sets j) as [h2 Hj]; [apply Hjs; left|].
    simpl. rewrite Hi, Hj, jaccard_done by done.
    destruct (IH (<[(j, i) := Z.of_nat (size (h1 ∩ h2))
                              # Pos.of_nat (size (h1 ∪ h2))]>
                    (<[(i, j) := Z.of_nat (size (h1 ∩ h2))
                                 # Pos.of_nat (size (h1 ∪ h2))]> sims)))
      as (sims' & Hrun & Hlook).
    { intros j' Hj'. apply Hjs. by right. }
    exists sims'. split; [done|]. intros a b. rewrite Hlook.
    assert (jaccard_index sets i j
            = Z.of_nat (size (h1 ∩ h2)) # Pos.of_nat (size (h1 ∪ h2)))
      as Hij by (unfold jaccard_index; by rewrite Hi, Hj).
    destruct (decide ((a = i /\ b ∈ js) \/ (b = i /\ a ∈ js))) as [Hc|Hc].
    { rewrite decide_True; [done|]. rewrite !elem_of_cons. tauto. }
    destruct (decide ((a, b) = (j, i))) as [Heq|Hne1].
    { inversion Heq; subst a b. rewrite lookup_insert_eq.
      rewrite decide_True by (right; split; [done|left]).
      by rewrite jaccard_index_sym, Hij. }
    rewrite lookup_insert_ne by done.
    destruct (decide ((a, b) = (i, j))) as [Heq|Hne2].
    { inversion Heq; subst a b. rewrite lookup_insert_eq.
      rewrite decide_True by (left; split; [done|left]).
      by rewrite Hij. }
    rewrite lookup_insert_ne by done.
    rewrite decide_False; [done|]. rewrite !elem_of_cons.
    intros [[-> [->|?]]|[-> [->|?]]]; tauto.
Qed.

Lemma for_i_done sets rows sims :
  (forall i, i ∈ rows -> exists h, sets !! i = Some h /\ h <> ∅) ->
  exists sims',
    for_i sets rows sims = Done sims' /\
    forall a b,
      sims' !! (a, b)
      = if decide ((a ∈ rows /\ a <= b < length sets)
                   \/ (b ∈ rows /\ b <= a < length sets))
        then Some (jaccard_index sets a b) else sims !! (a, b).
Proof.
  revert sims. induction rows as [|i rows IH]; intros sims Hrows.
  - exists sims. split; [done|]. intros a b.
    rewrite decide_False; [done|]. rewrite !elem_of_nil. tauto.
  - destruct (Hrows i) as (h & Hi & Hne); [left|].
    destruct (for_j_done sets i h (seq i (length sets - i)) sims Hi Hne)
      as (sims1 & Hrun1 & Hlook1).
    { intros j Hj. apply elem_of_seq in Hj. lia. }
    destruct (IH sims1) as (sims' & Hrun & Hlook).
    { intros i' Hi'. apply Hrows. by right. }
    exists sims'. split; [simpl; by rewrite Hrun1|].
    intros a b. rewrite Hlook, Hlook1.
    repeat case_decide; try done; exfalso;
      rewrite ?elem_of_cons, ?elem_of_seq in *; intuition lia.
Qed.

Lemma zeros_lookup n i j q :
  zeros n !! (i, j) = Some q -> i < n /\ j < n.
Proof.
  unfold zeros. intros Hl. apply elem_of_list_to_map_2 in Hl.
  apply list_elem_of_bind in Hl as (a & Hin & Ha).
  apply list_elem_of_fmap in Hin as (b & Heq & Hb).
  inversion Heq; subst. apply elem_of_seq in Ha, Hb. lia.
Qed.

Lemma for_i_fail sets m c sims :
  c + m = length sets ->
  (exists i, c <= i /\ sets !! i = Some ∅) ->
  for_i sets (seq c m) sims = Fail ZeroDivisionError.
Proof.
  revert c sims. induction m as [|m IH]; intros c sims Hlen (i & Hci & Hi).
  { apply lookup_lt_Some in Hi. lia. }
  simpl. destruct (lookup_lt_is_Some_2 sets c) as [h Hc]; [lia|].
  destruct (decide (h = ∅)) as [->|Hne].
  - replace (length sets - c) with (S m) by lia. simpl.
    rewrite Hc. unfold jaccard.
    by rewrite union_empty_l_L, size_empty.
  - destruct (for_j_done sets c h (seq c (length sets - c)) sims Hc Hne)
      as (sims1 & -> & _).
    { intros j Hj. apply elem_of_seq in Hj. lia. }
    apply IH; [lia|]. exists i. split; [|done].
    destruct (decide (i = c)) as [->|]; [congruence|lia].
Qed.

(** X21: when no headline set is empty, the double loop ends normally;
    the entry at (i, j) is the size of the intersection over the size of
    the union of sets i and j wherever both exist, so both triangles are
    filled and the matrix is symmetric, its diagonal is n/n, every entry
    lies between 0 and 1, and nothing is stored outside the n-by-n
    square. *)
Theorem affinity_jaccard sets :
  (forall h, h ∈ sets -> h <> ∅) ->
  exists sims,
    affinity sets = Done sims /\
    (forall i j h1 h2,
        sets !! i = Some h1 -> sets !! j = Some h2 ->
        sims !! (i, j)
        = Some (Z.of_nat (size (h1 ∩ h2)) # Pos.of_nat (size (h1 ∪ h2)))
        /\ sims !! (j, i) = sims !! (i, j)) /\
    (forall i h, sets !! i = Some h ->
        sims !! (i, i) = Some (Z.of_nat (size h) # Pos.of_nat (size h))) /\
    (forall i j q, sims !! (i, j) = Some q ->
        i < length sets /\ j < length sets /\ (0 <= q <= 1)%Q).
Proof.
  intros Hne. unfold affinity.
  destruct (for_i_done sets (seq 0 (length sets)) (zeros (length sets)))
    as (sims & Hrun & Hlook).
  { intros i Hi. apply elem_of_seq in Hi.
    destruct (lookup_lt_is_Some_2 sets i) as [h Hh]; [lia|].
    exists h. split; [done|]. apply Hne. by eapply list_elem_of_lookup_2. }
  assert (forall i j h1 h2, sets !! i = Some h1 -> sets !! j = Some h2 ->
            sims !! (i, j)
            = Some (Z.of_nat (size (h1 ∩ h2)) # Pos.of_nat (size (h1 ∪ h2))))
    as Hentry.
  { intros i j h1 h2 Hi Hj. rewrite Hlook.
    apply lookup_lt_Some in Hi as Hi'. apply lookup_lt_Some in Hj as Hj'.
    rewrite decide_True.
    - unfold jaccard_index. by rewrite Hi, Hj.
    - rewrite !elem_of_seq. lia. }
  exists sims. split; [done|]. split; [|split].
  - intros i j h1 h2 Hi Hj. split; [by apply Hentry|].
    rewrite (Hentry i j h1 h2), (Hentry j i h2 h1) by done.
    by rewrite (intersection_comm_L h1), (union_comm_L h1).
  - intros i h Hi. rewrite (Hentry i i h h) by done.
    by rewrite intersection_idemp_L, union_idemp_L.
  - intros i j q Hq. rewrite Hlook in Hq. case_decide as Hc.
    + assert (i < length sets /\ j < length sets) as [Hi Hj].
      { rewrite !elem_of_seq in Hc. lia. }
      split; [done|]. split; [done|]. inversion Hq. unfold jaccard_index.
      destruct (lookup_lt_is_Some_2 sets i Hi) as [h1 Hh1].
      destruct (lookup_lt_is_Some_2 sets j Hj) as [h2 Hh2].
      rewrite Hh1, Hh2. simpl. apply score_bounds.
      * apply subseteq_size. etransitivity;
          [apply intersection_subseteq_l | apply union_subseteq_l].
      * assert (size (h1 ∪ h2) <> 0); [|lia]. intros Hz.
        apply size_empty_inv, empty_union in Hz as [Hz _].
        apply (Hne h1); [by eapply list_elem_of_lookup_2|].
        by apply leibniz_equiv.
    + apply zeros_lookup in Hq as Hr. exfalso. apply Hc.
      rewrite !elem_of_seq. lia.
Qed.

(** The loops that keep the matrix agree with the loops that drop it on
    failure. *)
Lemma for_j_sims_for_j sets i js sims :
  for_j sets i js sims
  = match for_j_sims sets i js sims with
    | (sims', None) => Done sims'
    | (_, Some e) => Fail e
    end.
Proof.
  revert sims. induction js as [|j js IH]; intros sims; simpl; [done|].
  destruct (sets !! i) as [h1|]; [|done].
  destruct (sets !! j) as [h2|]; [|done].
  destruct (jaccard h1 h2); [apply IH|done].
Qed.

Lemma for_i_sims_for_i sets rows sims :
  for_i sets rows sims
  = match for_i_sims sets rows sims with
    | (sims', None) => Done sims'
    | (_, Some e) => Fail e
    end.
Proof.
  revert sims. induction rows as [|i rows IH]; intros sims; simpl; [done|].
  rewrite for_j_sims_for_j.
  destruct (for_j_sims sets i _ sims) as [sims' [e|]]; [done|apply IH].
Qed.

Lemma for_i_sims_app sets rows1 rows2 sims :
  for_i_sims sets (rows1 ++ rows2) sims
  = match for_i_sims sets rows1 sims with
    | (sims', None) => for_i_sims sets rows2 sims'
    | (sims', Some e) => (sims', Some e)
    end.
Proof.
  revert sims. induction rows1 as [|i rows1 IH]; intros sims; simpl; [done|].
  destruct (for_j_sims sets i _ sims) as [sims' [e|]]; [done|apply IH].
Qed.

Lemma zeros_lookup_in n i j : i < n -> j < n -> zeros n !! (i, j) = Some 0%Q.
Proof.
  intros Hi Hj. destruct (zeros n !! (i, j)) as [q|] eqn:Hl.
  - unfold zeros in Hl. apply elem_of_list_to_map_2 in Hl.
    apply list_elem_of_bind in Hl as (a & Hin & Ha).
    apply list_elem_of_fmap in Hin as (b & Heq & Hb). by inversion Heq.
  - exfalso. unfold zeros in Hl. apply not_elem_of_list_to_map in Hl.
    apply Hl. apply list_elem_of_fmap. exists ((i, j), 0%Q). split; [done|].
    apply list_elem_of_bind. exists i. split; [|apply elem_of_seq; lia].
    apply list_elem_of_fmap. exists j. split; [done|apply elem_of_seq; lia].
Qed.

(** X22: when the set at position [i0] is the first empty one, the double
    loop raises ZeroDivisionError in row [i0], where the set is compared
    with itself and their union is empty.  The rows before are complete:
    the matrix left behind holds the Jaccard similarity wherever the row or
    the column precedes [i0], and still holds zero elsewhere in the
    square. *)
Theorem affinity_first_empty_set sets (i0 : nat) :
  sets !! i0 = Some ∅ ->
  (forall i h, i < i0 -> sets !! i = Some h -> h <> ∅) ->
  exists sims,
    affinity_sims sets = (sims, Some ZeroDivisionError) /\
    affinity sets = Fail ZeroDivisionError /\
    (forall a b, a < length sets -> b < length sets ->
       sims !! (a, b)
       = Some (if decide (a < i0 \/ b < i0) then jaccard_index sets a b
               else 0%Q)) /\
    (forall a b q, sims !! (a, b) = Some q ->
       a < length sets /\ b < length sets).
Proof.
  intros Hi0 Hfirst. apply lookup_lt_Some in Hi0 as Hlt.
  destruct (for_i_done sets (seq 0 i0) (zeros (length sets)))
    as (sims & Hrun & Hlook).
  { intros i Hi. apply elem_of_seq in Hi.
    destruct (lookup_lt_is_Some_2 sets i) as [h Hh]; [lia|].
    exists h. split; [done|]. apply (Hfirst i); [lia|done]. }
  rewrite for_i_sims_for_i in Hrun.
  destruct (for_i_sims sets (seq 0 i0) (zeros (length sets)))
    as [sims1 [e|]] eqn:Hprefix; [done|].
  inversion Hrun; subst sims1. clear Hrun.
  exists sims. split; [|split; [|split]].
  - unfold affinity_sims.
    replace (length sets) with (i0 + S (length sets - S i0)) at 1 by lia.
    rewrite seq_app, for_i_sims_app, Hprefix. simpl.
    replace (length sets - i0) with (S (length sets - S i0)) by lia.
    simpl. rewrite Hi0. unfold jaccard.
    by rewrite union_empty_l_L, size_empty.
  - unfold affinity. apply for_i_fail; [done|]. exists i0. split; [lia|done].
  - intros a b Ha Hb. rewrite Hlook.
    destruct (decide (a < i0 \/ b < i0)) as [Hc|Hc].
    + rewrite decide_True; [done|]. rewrite !elem_of_seq. lia.
    + rewrite decide_False; [by apply zeros_lookup_in|].
      rewrite !elem_of_seq. lia.
  - intros a b q Hq. rewrite Hlook in Hq. case_decide as Hc.
    + rewrite !elem_of_seq in Hc. lia.
    + by apply zeros_lookup in Hq.
Qed.

Lemma ngrams_length (l : list A) n :
  0 < n -> length (ngrams l n) = length l + 1 - n.
Proof.
  intros Hn. induction l as [|x l IH]; simpl; [lia|].
  destruct (Nat.leb_spec n (S (length l))); simpl; [rewrite IH|]; lia.
Qed.

Lemma ngrams_lookup (l : list A) n i w :
  ngrams l n !! i = Some w -> w = take n (drop i l) /\ length w = n.
Proof.
  revert i. induction l as [|x l IH]; intros i; simpl; [done|].
  destruct (Nat.leb_spec n (S (length l))) as [Hle|]; [|done].
  destruct i as [|i]; simpl.
  - intros Heq. inversion Heq. split; [done|].
    rewrite length_take. simpl. lia.
  - apply IH.
Qed.

Lemma headline_set_empty (lowered : list A) :
  headline_set lowered = ∅ <-> length lowered < 3.
Proof.
  unfold headline_set. pose proof (ngrams_length lowered 3) as Hlen.
  destruct (ngrams lowered 3) as [|w ws] eqn:Hng; simpl in *.
  - split; [lia|done].
  - split; [|lia]. intros Hempty. exfalso.
    assert (w ∈ ({[w]} ∪ list_to_set ws : gset (list A))) as Hw
      by set_solver.
    rewrite Hempty in Hw. set_solver.
Qed.

(** X23: the affinity matrix of the 3-gram sets can be computed exactly
    when every lowered headline has at least three characters; a shorter
    headline has no 3-gram, and the computation raises
    ZeroDivisionError. *)
Theorem headline_affinity_needs_three_characters (lowered : list (list A)) :
  (Exists (fun h => length h < 3) lowered /\
   affinity (headline_set <$> lowered) = Fail ZeroDivisionError)
  \/ (Forall (fun h => 3 <= length h) lowered /\
      exists sims, affinity (headline_set <$> lowered) = Done sims).
Proof.
  destruct (decide (Exists (fun h => length h < 3) lowered)) as [Hex|Hall].
  - left. split; [done|]. apply Exists_exists in Hex as (h & Hin & Hlen).
    assert (∅ ∈ headline_set <$> lowered) as Hempty.
    { apply list_elem_of_fmap. exists h. split; [|done].
      symmetry. by apply headline_set_empty. }
    apply list_elem_of_lookup in Hempty as (i & Hi).
    unfold affinity. apply for_i_fail; [done|]. exists i. split; [lia|done].
  - right. apply not_Exists_Forall in Hall; [|apply _]. split.
    { eapply Forall_impl; [exact Hall|]. simpl. intros; lia. }
    unfold affinity.
    destruct (for_i_done (headline_set <$> lowered)
                (seq 0 (length (headline_set <$> lowered)))
                (zeros (length (headline_set <$> lowered))))
      as (sims & Hrun & _); [|by exists sims].
    intros i Hi. apply elem_of_seq in Hi.
    destruct (lookup_lt_is_Some_2 (headline_set <$> lowered) i)
      as [hset Hh]; [lia|].
    exists hset. split; [done|].
    apply list_elem_of_lookup_2, list_elem_of_fmap in Hh as (h & -> & Hin).
    rewrite headline_set_empty. eapply Forall_forall in Hall; [|exact Hin].
    simpl in Hall. lia.
Qed.

End Headlines.

Lemma affinity_jaccard_witness :
  let sets := headlines.headline_set <$> sample_headlines in
  (forall h, h ∈ sets -> h <> ∅) /\
  exists sims,
    headlines.affinity sets = headlines.Done sims /\
    (forall i j h1 h2,
        sets !! i = Some h1 -> sets !! j = Some h2 ->
        sims !! (i, j)
        = Some (Z.of_nat (size (h1 ∩ h2)) # Pos.of_nat (size (h1 ∪ h2)))
        /\ sims !! (j, i) = sims !! (i, j)) /\
    (forall i h, sets !! i = Some h ->
        sims !! (i, i) = Some (Z.of_nat (size h) # Pos.of_nat (size h))) /\
    (forall i j q, sims !! (i, j) = Some q ->
        i < length sets /\ j < length sets /\ (0 <= q <= 1)%Q).
Proof.
  intros sets.
  assert (forall h, h ∈ sets -> h <> ∅) as Hne.
  { intros h Hh. subst sets.
    apply list_elem_of_fmap in Hh as (l & -> & Hl).
    rewrite headline_set_empty. unfold sample_headlines in Hl.
    repeat (apply elem_of_cons in Hl as [->|Hl]; [simpl; lia|]).
    by apply elem_of_nil in Hl. }
  split; [exact Hne | apply (affinity_jaccard sets Hne)].
Defined.

Lemma affinity_first_empty_set_witness :
  let sets := headlines.headline_set <$> short_headlines in
  sets !! 1 = Some ∅ /\
  (forall i h, i < 1 -> sets !! i = Some h -> h <> ∅) /\
  exists sims,
    headlines.affinity_sims sets
    = (sims, Some headlines.ZeroDivisionError) /\
    headlines.affinity sets = headlines.Fail headlines.ZeroDivisionError /\
    (forall a b, a < length sets -> b < length sets ->
       sims !! (a, b)
       = Some (if decide (a < 1 \/ b < 1) then jaccard_index sets a b
               else 0%Q)) /\
    (forall a b q, sims !! (a, b) = Some q ->
       a < length sets /\ b < length sets).
Proof.
  intros sets.
  assert (sets !! 1 = Some ∅) as H1 by reflexivity.
  assert (forall i h, i < 1 -> sets !! i = Some h -> h <> ∅) as Hfirst.
  { intros i h Hi Hh. assert (i = 0) as -> by lia.
    subst sets. simpl in Hh. inversion Hh.
    rewrite headline_set_empty. simpl. lia. }
  split; [exact H1|]. split; [exact Hfirst|].
  apply (affinity_first_empty_set sets 1 H1 Hfirst).
Defined.

(** ** The elbow plot *)

Section Elbow.
Import elbow.

Lemma trunc_bounds (q : Q) :
  (0 <= q)%Q ->
  (0 <= trunc q)%Z /\
  (inject_Z (trunc q) <= q)%Q /\ (q < inject_Z (trunc q + 1))%Q.
Proof.
  destruct q as [num den]. unfold Qle, Qlt, trunc. simpl.
  intros Hq. rewrite Z.mul_1_r in Hq.
  rewrite Z.quot_div_nonneg by lia. rewrite !Z.mul_1_r.
  pose proof (Z.mul_div_le num (Z.pos den)).
  pose proof (Z.mul_succ_div_gt num (Z.pos den)).
  pose proof (Z.div_pos num (Z.pos den)). lia.
Qed.

(** A non-negative value below 2^63 is stored as its whole part. *)
Lemma to_int64_in_range (q : Q) :
  (0 <= q)%Q -> (q < inject_Z (2 ^ 63))%Q ->
  to_int64 (Finite q) = Done (trunc q).
Proof.
  intros Hq Hlt. destruct (trunc_bounds q Hq) as (Hpos & Hle & _).
  assert (inject_Z (trunc q) < inject_Z (2 ^ 63))%Q as Hlt'
    by (eapply Qle_lt_trans; eassumption).
  rewrite <- Zlt_Qlt in Hlt'. unfold to_int64.
  destruct (Z.leb_spec (- 2 ^ 63) (trunc q)); [|lia].
  by destruct (Z.ltb_spec (trunc q) (2 ^ 63)); [|lia].
Qed.

Lemma setitem_in_range (arr : list Z) (i : nat) (value : float) stored :
  i < length arr -> to_int64 value = Done stored ->
  setitem arr (Z.of_nat i) value = Done (<[i := stored]> arr).
Proof.
  intros Hi Hstored. unfold setitem.
  destruct (Z.ltb_spec (Z.of_nat i) 0); [lia|].
  destruct (Z.ltb_spec (Z.of_nat i) 0); [lia|].
  destruct (Z.leb_spec (Z.of_nat (length arr)) (Z.of_nat i)); [lia|].
  simpl. by rewrite Hstored, Nat2Z.id.
Qed.

(** After [i] steps the first [i] entries hold truncated inertias and the
    others still hold their cluster counts. *)
Lemma wcsse_loop_invariant (inertia : nat -> Z -> result float)
  (q : nat -> Q) (m r i : nat) :
  i + r = m ->
  (forall j, j < m ->
     inertia j (Z.of_nat j + 1)%Z = Ok (Finite (q j)) /\
     to_int64 (Finite (q j)) = Done (trunc (q j))) ->
  wcsse_loop inertia (seq i r)
    (((fun j => trunc (q j)) <$> seq 0 i)
     ++ ((fun j => Z.of_nat j + 1)%Z <$> seq i r))
  = Done ((fun j => trunc (q j)) <$> seq 0 m).
Proof.
  intros Hm Hfit. revert i Hm. induction r as [|r IH]; intros i Hm.
  - simpl. rewrite app_nil_r. f_equal. f_equal. f_equal. lia.
  - simpl. rewrite lookup_app_r by (by rewrite length_fmap, length_seq).
    rewrite length_fmap, length_seq, Nat.sub_diag. simpl.
    destruct (Hfit i) as [-> Hstored]; [lia|].
    replace (Z.of_nat i + 1 - 1)%Z with (Z.of_nat i) by lia.
    erewrite setitem_in_range; [|  |exact Hstored];
      [|rewrite length_app, !length_fmap, length_seq; simpl; lia].
    rewrite insert_app_r_alt by (by rewrite length_fmap, length_seq).
    rewrite length_fmap, length_seq, Nat.sub_diag. simpl.
    specialize (IH (S i)). rewrite seq_S, fmap_app, <- app_assoc in IH.
    simpl in IH. apply IH. lia.
Qed.

(** X24: when every fit succeeds with a non-negative inertia below 2^63,
    the loop of [wcsse_plot] fits 1, 2, ..., max_clusters clusters once
    each, in this order, although it overwrites the array it iterates over;
    since that array holds 64-bit integers, the value plotted for k
    clusters is the inertia without its fractional part. *)
Theorem wcsse_values_truncated (inertia : nat -> Z -> result float)
  (q : nat -> Q) (max_clusters : nat) :
  (forall i, i < max_clusters ->
     inertia i (Z.of_nat i + 1)%Z = Ok (Finite (q i)) /\
     (0 <= q i)%Q /\ (q i < inject_Z (2 ^ 63))%Q) ->
  exists values,
    wcsse_values inertia max_clusters = Done values /\
    length values = max_clusters /\
    forall i, i < max_clusters ->
      exists stored,
        values !! i = Some stored /\
        to_int64 (Finite (q i)) = Done stored /\
        (- 2 ^ 63 <= stored < 2 ^ 63)%Z /\
        (inject_Z stored <= q i)%Q /\ (q i < inject_Z (stored + 1))%Q.
Proof.
  intros Hfit. exists ((fun j => trunc (q j)) <$> seq 0 max_clusters).
  split.
  - unfold wcsse_values.
    apply (wcsse_loop_invariant inertia q max_clusters max_clusters 0);
      [lia|].
    intros j Hj. destruct (Hfit j Hj) as (Hrun & Hpos & Hlt).
    split; [done|by apply to_int64_in_range].
  - split; [by rewrite length_fmap, length_seq|].
    intros i Hi. destruct (Hfit i Hi) as (_ & Hpos & Hlt).
    exists (trunc (q i)). split.
    { rewrite list_lookup_fmap, lookup_seq_lt by done. done. }
    split; [by apply to_int64_in_range|].
    destruct (trunc_bounds (q i) Hpos) as (H0 & Hle & Hup).
    split; [|done].
    assert (inject_Z (trunc (q i)) < inject_Z (2 ^ 63))%Q as Hlt'
      by (eapply Qle_lt_trans; eassumption).
    rewrite <- Zlt_Qlt in Hlt'. lia.
Qed.

Lemma wcsse_values_truncated_witness :
  (forall i, i < 4 ->
     sample_inertia i (Z.of_nat i + 1)%Z
     = Ok (Finite (((Z.of_nat i + 1) * 7 + 1) # 2)) /\
     (0 <= ((Z.of_nat i + 1) * 7 + 1) # 2)%Q /\
     (((Z.of_nat i + 1) * 7 + 1) # 2 < inject_Z (2 ^ 63))%Q) /\
  exists values,
    wcsse_values sample_inertia 4 = Done values /\
    length values = 4 /\
    forall i, i < 4 ->
      exists stored,
        values !! i = Some stored /\
        to_int64 (Finite (((Z.of_nat i + 1) * 7 + 1) # 2)) = Done stored /\
        (- 2 ^ 63 <= stored < 2 ^ 63)%Z /\
        (inject_Z stored <= ((Z.of_nat i + 1) * 7 + 1) # 2)%Q /\
        (((Z.of_nat i + 1) * 7 + 1) # 2 < inject_Z (stored + 1))%Q.
Proof.
  assert (forall i, i < 4 ->
     sample_inertia i (Z.of_nat i + 1)%Z
     = Ok (Finite (((Z.of_nat i + 1) * 7 + 1) # 2)) /\
     (0 <= ((Z.of_nat i + 1) * 7 + 1) # 2)%Q /\
     (((Z.of_nat i + 1) * 7 + 1) # 2 < inject_Z (2 ^ 63))%Q) as Hfit.
  { intros i Hi. split; [reflexivity|].
    unfold Qle, Qlt; simpl. lia. }
  split; [exact Hfit|].
  apply (wcsse_values_truncated sample_inertia
           (fun i => ((Z.of_nat i + 1) * 7 + 1) # 2) 4 Hfit).
Defined.

(** An inertia of 2^63 does not fit, and NaN is refused. *)
Example to_int64_overflow :
  to_int64 (Finite (inject_Z (2 ^ 63))) = Fail OverflowError /\
  to_int64 NaN = Fail (Exn ValueError) /\
  wcsse_values (fun _ _ => Ok (Finite (inject_Z (2 ^ 63)))) 3
  = Fail OverflowError.
Proof. repeat split; reflexivity. Qed.

End Elbow.
